(** * AutoEnum: case- and separator-insensitive resolution of enum members

    A shallow embedding of [src/autoenum.py].  Python strings are modelled
    by [string] (a character is a code point below 256), the class
    attribute [_value2member_map_normalized_] by a [gmap string Variant]
    held in an explicit class state, exceptions by a small state-and-error
    monad, and Python dictionaries by insertion-ordered association lists. *)

From Stdlib Require Import ZArith Ascii String List Lia.
From stdpp Require Import base option list gmap strings pretty.

Local Open Scope string_scope.

(** ** Translation tables: [str.maketrans] and [str.translate] *)

Module Translate.

(** A translation table maps a character to [Some c'] (replace) or to
    [None] (delete); characters without an entry are kept. *)
Definition table := list (ascii * option ascii).

Fixpoint get (t : table) (c : ascii) : option (option ascii) :=
  match t with
  | [] => None
  | (k, v) :: t' => if Ascii.eqb k c then Some v else get t' c
  end.

(** [d[k] = v] on the table: a later binding for the same character wins. *)
Definition set (t : table) (k : ascii) (v : option ascii) : table :=
  (k, v) :: t.

Fixpoint set_pairs (t : table) (x y : list ascii) : table :=
  match x, y with
  | a :: x', b :: y' => set_pairs (set t a (Some b)) x' y'
  | _, _ => t
  end.

Fixpoint set_removed (t : table) (z : list ascii) : table :=
  match z with
  | [] => t
  | a :: z' => set_removed (set t a None) z'
  end.

(** [str.maketrans(x, y, z)]: [x[i]] is mapped to [y[i]], then every
    character of [z] is mapped to [None]. *)
Definition maketrans (x y z : string) : table :=
  set_removed
    (set_pairs [] (list_ascii_of_string x) (list_ascii_of_string y))
    (list_ascii_of_string z).

Definition translate_char (t : table) (c : ascii) : string :=
  match get t c with
  | None => String c EmptyString
  | Some None => EmptyString
  | Some (Some c') => String c' EmptyString
  end.

(** [s.translate(t)] *)
Fixpoint translate (t : table) (s : string) : string :=
  match s with
  | EmptyString => EmptyString
  | String c s' => translate_char t c ++ translate t s'
  end.

End Translate.

Definition _DEFAULT_REMOVAL_TABLE : Translate.table :=
  Translate.maketrans
    "ABCDEFGHIJKLMNOPQRSTUVWXYZ" "abcdefghijklmnopqrstuvwxyz"
    " -_.:;,".

(** ** Python [repr] of a string and of a list of strings *)

Module Repr.

Definition hex_digit (n : N) : ascii :=
  ascii_of_N (if (n <? 10)%N then 48 + n else 87 + n)%N.

(** [\xhh] *)
Definition hex_escape (c : ascii) : string :=
  let n := N_of_ascii c in
  String "\" (String "x"
    (String (hex_digit (n / 16)%N) (String (hex_digit (n mod 16)%N) EmptyString))).

(** The printable code points below 256. *)
Definition isprintable (c : ascii) : bool :=
  let n := N_of_ascii c in
  ((32 <=? n) && (n <? 127) || (161 <=? n) && negb (n =? 173))%N.

Fixpoint contains (c : ascii) (s : string) : bool :=
  match s with
  | EmptyString => false
  | String a s' => Ascii.eqb a c || contains c s'
  end.

Definition squote : ascii := "'"%char.
Definition dquote : ascii := ascii_of_N 34.

(** Double quotes are used only when the string holds a single quote and no
    double quote. *)
Definition quote_of (s : string) : ascii :=
  if contains squote s && negb (contains dquote s) then dquote else squote.

Definition escape_char (q c : ascii) : string :=
  if Ascii.eqb c q || Ascii.eqb c "\"%char then String "\" (String c EmptyString)
  else if Ascii.eqb c (ascii_of_N 9) then "\t"
  else if Ascii.eqb c (ascii_of_N 10) then "\n"
  else if Ascii.eqb c (ascii_of_N 13) then "\r"
  else if isprintable c then String c EmptyString
  else hex_escape c.

Fixpoint escape (q : ascii) (s : string) : string :=
  match s with
  | EmptyString => EmptyString
  | String c s' => escape_char q c ++ escape q s'
  end.

(** [repr(s)] for a [str] *)
Definition repr_str (s : string) : string :=
  let q := quote_of s in
  String q (escape q s ++ String q EmptyString).

Fixpoint join (sep : string) (l : list string) : string :=
  match l with
  | [] => EmptyString
  | [x] => x
  | x :: l' => x ++ sep ++ join sep l'
  end.

(** [str(l)] for a list of [str] *)
Definition repr_list (l : list string) : string :=
  "[" ++ join ", " (map repr_str l) ++ "]".

End Repr.

(** ** Data model *)

(** A member of an enumeration as declared in the class body: [NAME = auto()]
    has no alias names, [NAME = alias(a1, ..., an)] has [n >= 1] of them
    ([alias()] raises). *)
Record Variant := mkVariant {
  name : string;
  names : list string
}.

Global Instance Variant_eq_dec : EqDecision Variant.
Proof. solve_decision. Defined.

(** [alias.__str__] *)
Definition alias_str (ns : list string) : string :=
  "alias:" ++ Repr.repr_list ns.

(** [e.value]: [_generate_next_value_] makes [auto()] the member's name;
    for a [str] mix-in the value of [alias(...)] is [str] of the alias object. *)
Definition value (e : Variant) : string :=
  match names e with
  | [] => name e
  | ns => alias_str ns
  end.

(** An enumeration class: its identity as an object, its [__name__] and
    [list(cls)], the members in declaration order. *)
Record EnumClass := mkEnumClass {
  cls_id : nat;
  cls_name : string;
  members : list Variant
}.

(** The Python values that reach the resolver. A member of some [AutoEnum]
    subclass is identified by its class and its declaration. *)
Inductive PyVal :=
| PyNone
| PyInt (z : Z)
| PyStr (s : string)
| PyMember (owner : nat) (e : Variant).

Global Instance PyVal_eq_dec : EqDecision PyVal.
Proof. solve_decision. Defined.

(** [isinstance(x, cls)] *)
Definition isinstance_cls (cls : EnumClass) (x : PyVal) : bool :=
  match x with
  | PyMember o _ => Nat.eqb o (cls_id cls)
  | _ => false
  end.

(** [isinstance(x, str)]: every [AutoEnum] class derives from [str]. *)
Definition isinstance_str (x : PyVal) : bool :=
  match x with
  | PyStr _ | PyMember _ _ => true
  | _ => false
  end.

(** [str(x)]; [AutoEnum.__str__] returns the member's name. *)
Definition py_str (x : PyVal) : string :=
  match x with
  | PyNone => "None"
  | PyInt z => pretty z
  | PyStr s => s
  | PyMember _ e => name e
  end.

(** [AutoEnum._normalize] *)
Definition _normalize (x : PyVal) : string :=
  Translate.translate _DEFAULT_REMOVAL_TABLE (py_str x).

Definition normalize (s : string) : string := _normalize (PyStr s).

(** ** Exceptions and the state-and-error monad *)

(** Every failure of the module is a [ValueError]; the messages tell them
    apart: a collision in the definition of the enumeration, a non-string
    input under strict resolution, and a string that matches no member.
    [AttributeError] is what reading a class attribute that was never
    assigned raises. *)
Inductive message :=
| CannotRegister (who normalized : string)
| InputShouldBeString (x : PyVal)
| CouldNotFind (x : PyVal).

Inductive exn :=
| ValueError (m : message)
| AttributeError.

Inductive result (A : Type) :=
| Ok (a : A)
| Raise (e : exn).
Arguments Ok {A} a.
Arguments Raise {A} e.

(** A computation over a store [S] returns a value or raises, and in both
    cases leaves a store behind: a raise does not undo earlier writes. *)
Definition M (S A : Type) : Type := S → result A * S.

Definition ret {S A} (a : A) : M S A := λ s, (Ok a, s).

Definition raise {S A} (e : exn) : M S A := λ s, (Raise e, s).

Definition bind {S A B} (m : M S A) (k : A → M S B) : M S B :=
  λ s, match m s with
       | (Ok a, s') => k a s'
       | (Raise e, s') => (Raise e, s')
       end.

Notation "'let*' x ':=' m 'in' k" := (bind m (λ x, k))
  (at level 10, x name, m at level 100, k at level 200, only parsing).
Notation "m '>>' k" := (bind m (λ _, k))
  (at level 100, k at level 200, right associativity, only parsing).

(** [for a in l: body(a)] *)
Fixpoint for_ {S A} (l : list A) (body : A → M S unit) : M S unit :=
  match l with
  | [] => ret tt
  | a :: l' => body a >> for_ l' body
  end.

(** ** The resolution table *)

Abbreviation lookup_table := (gmap string Variant).

(** [k in d] *)
Definition contains_key (k : string) : M lookup_table bool :=
  λ t, (Ok (bool_decide (is_Some (t !! k))), t).

(** [d[k] = e] *)
Definition setitem (k : string) (e : Variant) : M lookup_table unit :=
  λ t, (Ok tt, <[k:=e]> t).

(** [s.startswith(p)] *)
Fixpoint startswith (p s : string) : bool :=
  match p, s with
  | EmptyString, _ => true
  | String a p', String b s' => Ascii.eqb a b && startswith p' s'
  | String _ _, EmptyString => false
  end.

(** The inner loop of [_initialize_lookup] over the alias names of [e]. *)
Definition register_alias (e : Variant) (e_name : string) : M lookup_table unit :=
  let normalized_e_name := normalize e_name in
  if String.eqb normalized_e_name (normalize (name e)) then ret tt
  else
    let* present := contains_key normalized_e_name in
    if (present : bool) then
      raise (ValueError (CannotRegister e_name normalized_e_name))
    else setitem normalized_e_name e.

(** [literal_eval(e.value.removeprefix('alias:'))]: the value of a member
    declared with [alias(...)] is ['alias:'] followed by the [repr] of the
    list of its names, which [literal_eval] reads back. *)
Definition literal_eval_names (e : Variant) : list string := names e.

(** The body of the loop of [_initialize_lookup] over [list(cls)]. *)
Definition register_member (e : Variant) : M lookup_table unit :=
  let normalized_e_name := normalize (name e) in
  let* present := contains_key normalized_e_name in
  if (present : bool) then
    raise (ValueError (CannotRegister (name e) normalized_e_name))
  else
    setitem normalized_e_name e >>
    if startswith "alias:" (value e) then
      let normalized_e_value := normalize (value e) in
      setitem normalized_e_value e >>
      for_ (literal_eval_names e) (register_alias e)
    else ret tt.

(** The class state: [Some t] when [_value2member_map_normalized_] is in
    [cls.__dict__] and bound to [t], [None] when it is not. *)
Abbreviation cls_dict := (option (gmap string Variant)).

(** [AutoEnum._initialize_lookup]: the attribute is bound to an empty
    dictionary before the loop and filled in place. *)
Definition _initialize_lookup (cls : EnumClass) : M cls_dict unit :=
  λ d, match d with
       | None =>
           let (r, t) := for_ (members cls) register_member ∅ in
           (r, Some t)
       | Some _ => (Ok tt, d)
       end.

(** [cls._value2member_map_normalized_.get(k)] *)
Definition lookup_get (k : string) : M cls_dict (option Variant) :=
  λ d, match d with
       | Some t => (Ok (t !! k), d)
       | None => (Raise AttributeError, d)
       end.

Definition is_None (x : PyVal) : bool :=
  match x with PyNone => true | _ => false end.

(** The member object behind a value that passed [isinstance(x, cls)]. *)
Definition as_member (x : PyVal) : option Variant :=
  match x with PyMember _ e => Some e | _ => None end.

(** [AutoEnum.from_str]; the result [None] is Python's [None]. *)
Definition from_str (cls : EnumClass) (enum_value : PyVal) (raise_error : bool)
  : M cls_dict (option Variant) :=
  if isinstance_cls cls enum_value then ret (as_member enum_value)
  else if is_None enum_value && negb raise_error then ret None
  else if negb (isinstance_str enum_value) && raise_error then
    raise (ValueError (InputShouldBeString enum_value))
  else
    _initialize_lookup cls >>
    let* enum_obj := lookup_get (_normalize enum_value) in
    if negb (bool_decide (is_Some enum_obj)) && raise_error then
      raise (ValueError (CouldNotFind enum_value))
    else ret enum_obj.

(** [AutoEnum.matches] *)
Definition matches (cls : EnumClass) (self : Variant) (enum_value : PyVal)
  : M cls_dict bool :=
  let* r := from_str cls enum_value false in
  ret (bool_decide (r = Some self)).

(** [AutoEnum.matches_any] *)
Definition matches_any (cls : EnumClass) (enum_value : PyVal) : M cls_dict bool :=
  let* r := from_str cls enum_value false in
  ret (negb (bool_decide (r = None))).

(** [AutoEnum.does_not_match_any] *)
Definition does_not_match_any (cls : EnumClass) (enum_value : PyVal)
  : M cls_dict bool :=
  let* b := matches_any cls enum_value in
  ret (negb b).

(** ** Identity, hashing and string form *)

Section Hashing.

(** The built-in [hash] on strings; it is seeded per process, so it is a
    parameter here. *)
Variable hash : string → Z.

(** The string that [__hash__] hands to [hash]. *)
Definition hash_key (cls : EnumClass) (self : Variant) : string :=
  cls_name cls ++ "." ++ name self.

(** [AutoEnum.__hash__], for a member [self] of [cls] *)
Definition __hash__ (cls : EnumClass) (self : Variant) : Z :=
  hash (hash_key cls self).

End Hashing.

(** [x is y] when [x] is a member: members are singletons, one object for
    each name of each class. *)
Definition is_member (cls : EnumClass) (self : Variant) (other : PyVal) : bool :=
  match other with
  | PyMember o e => Nat.eqb (cls_id cls) o && String.eqb (name self) (name e)
  | _ => false
  end.

(** [AutoEnum.__eq__] *)
Definition __eq__ (cls : EnumClass) (self : Variant) (other : PyVal) : bool :=
  is_member cls self other.

(** [AutoEnum.__ne__] *)
Definition __ne__ (cls : EnumClass) (self : Variant) (other : PyVal) : bool :=
  negb (is_member cls self other).

(** ** Dictionaries and the key conversions *)

Module Dict.

(** A dictionary in iteration (insertion) order. *)
Definition t (V : Type) : Type := list (PyVal * V).

(** [d[k] = v]: an existing key keeps its place and gets the new value, a
    new key goes last. *)
Fixpoint setitem {V} (d : t V) (k : PyVal) (v : V) : t V :=
  match d with
  | [] => [(k, v)]
  | (k', v') :: d' =>
      if decide (k' = k) then (k', v) :: d' else (k', v') :: setitem d' k v
  end.

Definition keys {V} (d : t V) : list PyVal := map fst d.

(** What a dictionary object satisfies: no key occurs twice. *)
Definition wf {V} (d : t V) : Prop := NoDup (keys d).

End Dict.

(** [for x in l: acc = body(acc, x)] with a local accumulator *)
Fixpoint fold_for {S A B} (l : list A) (body : B → A → M S B) (acc : B) : M S B :=
  match l with
  | [] => ret acc
  | a :: l' => let* acc' := body acc a in fold_for l' body acc'
  end.

(** The key object for a result of [from_str]. *)
Definition to_key (cls : EnumClass) (r : option Variant) : PyVal :=
  match r with
  | Some e => PyMember (cls_id cls) e
  | None => PyNone
  end.

(** [isinstance(k, str) and cls.from_str(k, raise_error=False) is not None] *)
Definition key_matches (cls : EnumClass) (k : PyVal) : M cls_dict bool :=
  if isinstance_str k then
    let* r := from_str cls k false in
    ret (negb (bool_decide (r = None)))
  else ret false.

(** [AutoEnum.convert_keys] *)
Definition convert_keys {V} (cls : EnumClass) (d : Dict.t V) : M cls_dict (Dict.t V) :=
  fold_for d
    (λ out_dict '(k, v),
       let* c := key_matches cls k in
       if (c : bool) then
         let* r := from_str cls k false in
         ret (Dict.setitem out_dict (to_key cls r) v)
       else ret (Dict.setitem out_dict k v))
    [].

(** [AutoEnum.convert_keys_to_str] *)
Definition convert_keys_to_str {V} (cls : EnumClass) (d : Dict.t V) : Dict.t V :=
  fold_left
    (λ out_dict '(k, v),
       if isinstance_cls cls k then Dict.setitem out_dict (PyStr (py_str k)) v
       else Dict.setitem out_dict k v)
    d [].

(** ** The conversions of values *)

(** A [set] in some iteration order: a list without repetition. *)
Module PySet.

Definition t : Type := list PyVal.

(** [s.add(x)] *)
Definition add (s : t) (x : PyVal) : t :=
  if bool_decide (x ∈ s) then s else (s ++ [x])%list.

Definition wf (s : t) : Prop := NoDup s.

End PySet.

(** [isinstance(item, str) and cls.matches_any(item)] *)
Definition item_matches (cls : EnumClass) (item : PyVal) : M cls_dict bool :=
  if isinstance_str item then matches_any cls item else ret false.

(** [AutoEnum.convert_list]; [cls.from_str(item)] is the strict call. *)
Definition convert_list (cls : EnumClass) (l : list PyVal)
  : M cls_dict (list PyVal) :=
  fold_for l
    (λ out_list item,
       let* c := item_matches cls item in
       if (c : bool) then
         let* r := from_str cls item true in
         ret (out_list ++ [to_key cls r])%list
       else ret (out_list ++ [item])%list)
    [].

(** [AutoEnum.convert_set] *)
Definition convert_set (cls : EnumClass) (s : PySet.t) : M cls_dict PySet.t :=
  fold_for s
    (λ out_set item,
       let* c := item_matches cls item in
       if (c : bool) then
         let* r := from_str cls item true in
         ret (PySet.add out_set (to_key cls r))
       else ret (PySet.add out_set item))
    [].

(** [AutoEnum.convert_dict_values] *)
Definition convert_dict_values (cls : EnumClass) (d : Dict.t PyVal)
  : M cls_dict (Dict.t PyVal) :=
  fold_for d
    (λ out_dict '(k, v),
       let* c := key_matches cls v in
       if (c : bool) then
         let* r := from_str cls v false in
         ret (Dict.setitem out_dict k (to_key cls r))
       else ret (Dict.setitem out_dict k v))
    [].


(** ** Display names *)

(** The string methods [display_name] uses, on ASCII strings: the case
    mappings of code points from 128 on are not modelled, and the
    statements about them are restricted to ASCII names. *)
Module Str.

Definition is_ascii_char (c : ascii) : bool := (N_of_ascii c <? 128)%N.

Fixpoint is_ascii (s : string) : bool :=
  match s with
  | EmptyString => true
  | String c s' => is_ascii_char c && is_ascii s'
  end.

Definition to_lower (c : ascii) : ascii :=
  let n := N_of_ascii c in
  if ((65 <=? n) && (n <=? 90))%N then ascii_of_N (n + 32) else c.

Definition to_upper (c : ascii) : ascii :=
  let n := N_of_ascii c in
  if ((97 <=? n) && (n <=? 122))%N then ascii_of_N (n - 32) else c.

(** [s.lower()] *)
Fixpoint lower (s : string) : string :=
  match s with
  | EmptyString => EmptyString
  | String c s' => String (to_lower c) (lower s')
  end.

(** [s.capitalize()] *)
Definition capitalize (s : string) : string :=
  match s with
  | EmptyString => EmptyString
  | String c s' => String (to_upper c) (lower s')
  end.

(** [s.split(sep)] for a separator of one character *)
Fixpoint split (sep : ascii) (s : string) : list string :=
  match s with
  | EmptyString => [EmptyString]
  | String c s' =>
      if Ascii.eqb c sep then EmptyString :: split sep s'
      else match split sep s' with
           | w :: ws => String c w :: ws
           | [] => [String c EmptyString]
           end
  end.

End Str.

(** The word of a display name: [of], [in] and [the] in lower case,
    anything else capitalized. *)
Definition display_word (word : string) : string :=
  if bool_decide (Str.lower word ∈ ["of"; "in"; "the"]) then Str.lower word
  else Str.capitalize word.

(** [AutoEnum.display_name], for a member [self] and the keyword [sep] *)
Definition display_name (self : Variant) (sep : string) : string :=
  Repr.join sep (map display_word (Str.split "_"%char (name self))).

(** [AutoEnum.display_names], with the keyword [sep] passed on *)
Definition display_names (cls : EnumClass) (sep : string) : string :=
  Repr.repr_list (map (λ e, display_name e sep) (members cls)).

(** ** Vocabulary for the further statements *)

(** The keys [register_member] stores for [e]. *)
Definition stored_keys (e : Variant) : list string :=
  normalize (name e) :: normalize (value e) :: map normalize (names e).

(** The loop [for k, v in d.items(): out[f(k)] = v]. *)
Definition assign_all {V} (f : PyVal → PyVal) (d out : Dict.t V) : Dict.t V :=
  fold_left (λ o '(k, v), Dict.setitem o (f k) v) d out.


(** ** The normalizer as the specification words it *)

Module NormalizeSpec.

Definition is_upper (c : ascii) : bool :=
  let n := N_of_ascii c in ((65 <=? n) && (n <=? 90))%N.

(** Lowercase an ASCII letter A–Z, keep anything else. *)
Definition lower (c : ascii) : ascii :=
  if is_upper c then ascii_of_N (N_of_ascii c + 32) else c.

(** Space, hyphen, underscore, period, colon, semicolon, comma. *)
Definition is_separator (c : ascii) : bool :=
  existsb (Ascii.eqb c) (list_ascii_of_string " -_.:;,").

Fixpoint normalize_spec (s : string) : string :=
  match s with
  | EmptyString => EmptyString
  | String c s' =>
      if is_separator c then normalize_spec s'
      else String (lower c) (normalize_spec s')
  end.

End NormalizeSpec.

(** ** Vocabulary for the statements *)

(** The strings a member is declared under: its name and its alias names. *)
Definition keys_of (e : Variant) : list string := name e :: names e.

(** The run over [list(cls)] that fills the table, from a table [t]. *)
Definition build (ms : list Variant) : M lookup_table unit :=
  for_ ms register_member.

(** An outcome is the collision error of the definition. *)
Definition collision_raised {S A} (o : result A * S) : Prop :=
  ∃ who key s, o = (Raise (ValueError (CannotRegister who key)), s).

(** The value of a computation started in [s], and the store it leaves. *)
Definition outcome {S A} (m : M S A) (s : S) : result A := fst (m s).
Definition store {S A} (m : M S A) (s : S) : S := snd (m s).

(** The table the first use of a class leaves bound to it. *)
Definition table_of (cls : EnumClass) : lookup_table :=
  snd (build (members cls) ∅).

(** What non-strict resolution returns for [x] once the table is [t]. *)
Definition resolve_in (cls : EnumClass) (t : lookup_table) (x : PyVal)
  : option Variant :=
  if isinstance_cls cls x then as_member x
  else if is_None x then None
  else t !! _normalize x.

(** The key [convert_keys] stores for [k] once the table is [t]. *)
Definition converted_key (cls : EnumClass) (t : lookup_table) (k : PyVal) : PyVal :=
  if isinstance_str k && negb (bool_decide (resolve_in cls t k = None))
  then to_key cls (resolve_in cls t k)
  else k.

(** The key [convert_keys_to_str] stores for [k]. *)
Definition str_key (cls : EnumClass) (k : PyVal) : PyVal :=
  if isinstance_cls cls k then PyStr (py_str k) else k.


(** ** Enumerations used as concrete inputs *)

Module Examples.

(** [class Kind(AutoEnum): DATA_TYPE = auto(); MODEL = alias('net', 'Estimator')] *)
Definition DATA_TYPE : Variant := mkVariant "DATA_TYPE" [].
Definition MODEL : Variant := mkVariant "MODEL" ["net"; "Estimator"].
Definition Kind : EnumClass := mkEnumClass 1 "Kind" [DATA_TYPE; MODEL].

(** [class Ambiguous(AutoEnum): A = auto(); A_B = auto(); AB = alias('q'); C = auto()] *)
Definition A : Variant := mkVariant "A" [].
Definition A_B : Variant := mkVariant "A_B" [].
Definition AB : Variant := mkVariant "AB" ["q"].
Definition C : Variant := mkVariant "C" [].
Definition Ambiguous : EnumClass := mkEnumClass 2 "Ambiguous" [A; A_B; AB; C].

(** [class Shadowed(AutoEnum): OLD = alias("alias['x']"); NEW = alias('x')] *)
Definition OLD : Variant := mkVariant "OLD" ["alias['x']"].
Definition NEW : Variant := mkVariant "NEW" ["x"].
Definition Shadowed : EnumClass := mkEnumClass 3 "Shadowed" [OLD; NEW].


(** Two classes named [Color], defined in two modules, each with [RED = auto()]. *)
Definition RED : Variant := mkVariant "RED" [].
Definition Color1 : EnumClass := mkEnumClass 5 "Color" [RED].
Definition Color2 : EnumClass := mkEnumClass 6 "Color" [RED].

End Examples.

(** Closing an equation between closed terms by evaluation. *)
Ltac vm_refl :=
  lazymatch goal with
  | |- @eq ?T ?a ?b => exact (@eq_refl T b <: @eq T a b)
  end.

(** ** Properties of the normalizer *)

Section Normalizer.

Import Translate NormalizeSpec.

Lemma append_cons (a : ascii) (s1 s2 : string) :
  String a s1 ++ s2 = String a (s1 ++ s2).
Proof. reflexivity. Qed.

Lemma append_assoc (s1 s2 s3 : string) : (s1 ++ s2) ++ s3 = s1 ++ s2 ++ s3.
Proof.
  induction s1 as [|a s1 IH]; [reflexivity|].
  rewrite !append_cons. f_equal. exact IH.
Qed.

Lemma length_append (s1 s2 : string) :
  String.length (s1 ++ s2) = String.length s1 + String.length s2.
Proof.
  induction s1 as [|a s1 IH]; [reflexivity|].
  rewrite append_cons. cbn [String.length]. by rewrite IH.
Qed.

Lemma translate_app (t : table) (s1 s2 : string) :
  translate t (s1 ++ s2) = translate t s1 ++ translate t s2.
Proof.
  induction s1 as [|c s1 IH]; [reflexivity|].
  rewrite append_cons. cbn [translate]. rewrite IH. symmetry. apply append_assoc.
Qed.

(** One character at a time: what the table produces is left alone by the
    table. *)
Lemma translate_char_stable (c : ascii) :
  translate _DEFAULT_REMOVAL_TABLE (translate_char _DEFAULT_REMOVAL_TABLE c)
  = translate_char _DEFAULT_REMOVAL_TABLE c.
Proof. destruct c as [[] [] [] [] [] [] [] []]; vm_compute; reflexivity. Qed.

Lemma translate_char_spec (c : ascii) :
  translate_char _DEFAULT_REMOVAL_TABLE c
  = if is_separator c then EmptyString else String (lower c) EmptyString.
Proof. destruct c as [[] [] [] [] [] [] [] []]; vm_compute; reflexivity. Qed.

Lemma normalize_unfold (c : ascii) (s : string) :
  normalize (String c s) = translate_char _DEFAULT_REMOVAL_TABLE c ++ normalize s.
Proof. reflexivity. Qed.

Lemma normalize_idempotent (s : string) : normalize (normalize s) = normalize s.
Proof.
  induction s as [|c s IH]; [reflexivity|].
  rewrite normalize_unfold. unfold normalize at 1, _normalize. simpl py_str.
  rewrite translate_app, translate_char_stable. f_equal. exact IH.
Qed.

Lemma normalize_refines_spec (s : string) : normalize s = normalize_spec s.
Proof.
  induction s as [|c s IH]; [reflexivity|].
  rewrite normalize_unfold, translate_char_spec.
  cbn [normalize_spec]. rewrite <- IH.
  destruct (is_separator c); reflexivity.
Qed.

(** C4: the normalizer is idempotent, and it is the function that lowercases
    the ASCII letters A–Z, deletes space, hyphen, underscore, period, colon,
    semicolon and comma, and keeps every other character. *)
Theorem C4_normalize_idempotent :
  ∀ s : string,
    normalize (normalize s) = normalize s ∧ normalize s = normalize_spec s.
Proof.
  intros s. split; [apply normalize_idempotent | apply normalize_refines_spec].
Qed.

End Normalizer.

(** ** Running computations *)

Section Running.

Context {S : Type}.

Lemma for_cons {A} (a : A) (l : list A) (body : A → M S unit) (s : S) :
  for_ (a :: l) body s
  = match body a s with
    | (Ok _, s') => for_ l body s'
    | (Raise e, s') => (Raise e, s')
    end.
Proof. reflexivity. Qed.

Lemma for_app {A} (l1 l2 : list A) (body : A → M S unit) (s : S) :
  for_ (l1 ++ l2)%list body s
  = match for_ l1 body s with
    | (Ok _, s') => for_ l2 body s'
    | (Raise e, s') => (Raise e, s')
    end.
Proof.
  revert s. induction l1 as [|a l1 IH]; intros s; [reflexivity|].
  cbn [app]. rewrite !for_cons.
  destruct (body a s) as [[[]|e] s1]; [apply IH | reflexivity].
Qed.

(** A loop that ends normally ran its body normally on every element. *)
Lemma for_cons_ok {A} (a : A) (l : list A) (body : A → M S unit) (s s' : S) :
  for_ (a :: l) body s = (Ok tt, s') →
  ∃ s1, body a s = (Ok tt, s1) ∧ for_ l body s1 = (Ok tt, s').
Proof.
  rewrite for_cons. destruct (body a s) as [[[]|e] s1]; [eauto | discriminate].
Qed.

End Running.

(** ** Filling the table *)

Section Build.

Implicit Types (t : lookup_table) (e : Variant) (k : string).

Lemma register_alias_run e (a : string) t :
  register_alias e a t
  = if String.eqb (normalize a) (normalize (name e)) then (Ok tt, t)
    else if bool_decide (is_Some (t !! normalize a)) then
      (Raise (ValueError (CannotRegister a (normalize a))), t)
    else (Ok tt, <[normalize a := e]> t).
Proof.
  unfold register_alias, bind, contains_key, setitem, ret, raise.
  destruct (String.eqb _ _); [reflexivity|].
  destruct (bool_decide _); reflexivity.
Qed.

(** A member declared with [alias(...)] has a value that starts with
    ['alias:']. *)
Lemma startswith_alias_value e :
  names e ≠ [] → startswith "alias:" (value e) = true.
Proof. unfold value. destruct (names e); [congruence | reflexivity]. Qed.

Lemma register_member_run e t :
  register_member e t
  = if bool_decide (is_Some (t !! normalize (name e))) then
      (Raise (ValueError (CannotRegister (name e) (normalize (name e)))), t)
    else if startswith "alias:" (value e) then
      for_ (names e) (register_alias e)
        (<[normalize (value e) := e]> (<[normalize (name e) := e]> t))
    else (Ok tt, <[normalize (name e) := e]> t).
Proof.
  unfold register_member, bind, contains_key, setitem, ret, raise,
    literal_eval_names.
  destruct (bool_decide _); [reflexivity|].
  destruct (startswith _ _); reflexivity.
Qed.

(** What a normal run of the alias loop did to the table. *)
Lemma aliases_ok e (l : list string) t t' :
  for_ l (register_alias e) t = (Ok tt, t') →
  (∀ k, is_Some (t !! k) → is_Some (t' !! k))
  ∧ (∀ a, a ∈ l → normalize a ≠ normalize (name e) → t !! normalize a = None)
  ∧ (∀ a, a ∈ l → normalize a ≠ normalize (name e) → is_Some (t' !! normalize a)).
Proof.
  revert t. induction l as [|a l IH]; intros t H.
  - injection H as <-. split; [auto|]. split; intros a Ha; inversion Ha.
  - apply for_cons_ok in H as (t1 & Ha & Hl).
    destruct (IH _ Hl) as (Hmono & Hfresh & Hin).
    rewrite register_alias_run in Ha.
    destruct (String.eqb (normalize a) (normalize (name e))) eqn:Heq.
    + injection Ha as <-. apply String.eqb_eq in Heq.
      split; [exact Hmono|].
      split; intros b [->|Hb]%elem_of_cons Hne; try congruence; auto.
    + apply String.eqb_neq in Heq.
      destruct (bool_decide (is_Some (t !! normalize a))) eqn:Hpres;
        [discriminate|].
      injection Ha as <-. apply bool_decide_eq_false in Hpres.
      assert (Hsub : ∀ k, is_Some (t !! k) → is_Some (<[normalize a:=e]> t !! k)).
      { intros k Hk. destruct (decide (normalize a = k)) as [<-|Hne].
        - rewrite lookup_insert_eq. eauto.
        - rewrite lookup_insert_ne by done. exact Hk. }
      split; [auto|].
      split; intros b [->|Hb]%elem_of_cons Hne.
      * apply eq_None_not_Some. exact Hpres.
      * apply eq_None_not_Some. intros Hsome.
        apply Hsub in Hsome. rewrite (Hfresh b Hb Hne) in Hsome.
        by destruct Hsome.
      * apply Hmono. rewrite lookup_insert_eq. eauto.
      * auto.
Qed.

(** What a normal run of the body for one member did to the table: every
    string the member is declared under was absent before and is present
    after. *)
Lemma register_member_ok e t t' :
  register_member e t = (Ok tt, t') →
  (∀ k, is_Some (t !! k) → is_Some (t' !! k))
  ∧ (∀ s, s ∈ keys_of e → t !! normalize s = None)
  ∧ (∀ s, s ∈ keys_of e → is_Some (t' !! normalize s)).
Proof.
  rewrite register_member_run.
  destruct (bool_decide (is_Some (t !! normalize (name e)))) eqn:Hpres;
    [discriminate|].
  apply bool_decide_eq_false in Hpres.
  assert (Hnone : t !! normalize (name e) = None) by by apply eq_None_not_Some.
  assert (Hsub1 : ∀ k (x : string), is_Some (t !! k) → is_Some (<[x:=e]> t !! k)).
  { intros k x Hk. destruct (decide (x = k)) as [<-|Hne].
    - rewrite lookup_insert_eq. eauto.
    - rewrite lookup_insert_ne by done. exact Hk. }
  assert (Hsub2 : ∀ k (x y : string),
             is_Some (t !! k) → is_Some (<[y:=e]> (<[x:=e]> t) !! k)).
  { intros k x y Hk. destruct (decide (y = k)) as [<-|Hne].
    - rewrite lookup_insert_eq. eauto.
    - rewrite lookup_insert_ne by done. by apply Hsub1. }
  destruct (startswith "alias:" (value e)) eqn:Hstart.
  - intros H. destruct (aliases_ok _ _ _ _ H) as (Hmono & Hfresh & Hin).
    assert (Hname : is_Some (t' !! normalize (name e))).
    { apply Hmono. destruct (decide (normalize (value e) = normalize (name e)))
        as [->|Hne].
      - rewrite lookup_insert_eq. eauto.
      - rewrite lookup_insert_ne by done. rewrite lookup_insert_eq. eauto. }
    split; [intros k Hk; apply Hmono; by apply Hsub2|].
    split; intros s [->|Hs]%elem_of_cons; auto.
    + destruct (decide (normalize s = normalize (name e))) as [->|Hne]; [done|].
      apply eq_None_not_Some. intros Hsome.
      eapply Hsub2 in Hsome. rewrite (Hfresh s Hs Hne) in Hsome.
      by destruct Hsome.
    + destruct (decide (normalize s = normalize (name e))) as [->|Hne]; auto.
  - intros H. injection H as <-.
    assert (Hnames : names e = []).
    { destruct (names e) eqn:Hn; [done|].
      rewrite startswith_alias_value in Hstart; [discriminate|].
      by rewrite Hn. }
    split; [intros k Hk; by apply Hsub1|].
    unfold keys_of. rewrite Hnames.
    split; intros s Hs; apply list_elem_of_singleton in Hs as ->; [done|].
    rewrite lookup_insert_eq. eauto.
Qed.

Lemma build_ok (ms : list Variant) t t' :
  build ms t = (Ok tt, t') →
  (∀ k, is_Some (t !! k) → is_Some (t' !! k))
  ∧ (∀ e s, e ∈ ms → s ∈ keys_of e → t !! normalize s = None)
  ∧ (∀ e s, e ∈ ms → s ∈ keys_of e → is_Some (t' !! normalize s)).
Proof.
  unfold build. revert t. induction ms as [|e ms IH]; intros t H.
  - injection H as <-. split; [auto|]. split; intros e s He; inversion He.
  - apply for_cons_ok in H as (t1 & He & Hms).
    destruct (IH _ Hms) as (Hmono & Hfresh & Hin).
    destruct (register_member_ok _ _ _ He) as (Hmono1 & Hfresh1 & Hin1).
    split; [auto|].
    split; intros e' s [->|He']%elem_of_cons Hs; eauto.
    apply eq_None_not_Some. intros Hsome. apply Hmono1 in Hsome.
    rewrite (Hfresh e' s He' Hs) in Hsome. by destruct Hsome.
Qed.

End Build.

(** ** Collisions in the definition *)

Section Collisions.

Implicit Types (t : lookup_table) (e : Variant).

Lemma for_app_ok {S A} (l1 l2 : list A) (body : A → M S unit) (s s' : S) :
  for_ (l1 ++ l2)%list body s = (Ok tt, s') →
  ∃ s1, for_ l1 body s = (Ok tt, s1) ∧ for_ l2 body s1 = (Ok tt, s').
Proof.
  rewrite for_app. destruct (for_ l1 body s) as [[[]|x] s1]; [eauto | discriminate].
Qed.

(** The only exception the alias loop raises is the collision error. *)
Lemma aliases_raise e (l : list string) t t' (x : exn) :
  for_ l (register_alias e) t = (Raise x, t') →
  ∃ who key, x = ValueError (CannotRegister who key).
Proof.
  revert t. induction l as [|a l IH]; intros t; [discriminate|].
  rewrite for_cons, register_alias_run.
  destruct (String.eqb _ _); [apply IH|].
  destruct (bool_decide _); [|apply IH].
  intros [= <- <-]. eauto.
Qed.

Lemma register_member_raise e t t' (x : exn) :
  register_member e t = (Raise x, t') →
  ∃ who key, x = ValueError (CannotRegister who key).
Proof.
  rewrite register_member_run.
  destruct (bool_decide _); [intros [= <- <-]; eauto|].
  destruct (startswith _ _); [apply aliases_raise | discriminate].
Qed.

Lemma build_raise (ms : list Variant) t t' (x : exn) :
  build ms t = (Raise x, t') →
  ∃ who key, x = ValueError (CannotRegister who key).
Proof.
  unfold build. revert t. induction ms as [|e ms IH]; intros t; [discriminate|].
  rewrite for_cons. destruct (register_member e t) as [[[]|y] t1] eqn:He.
  - apply IH.
  - intros [= <- <-]. eapply register_member_raise, He.
Qed.

(** A run that does not end normally ends in the collision error. *)
Lemma build_not_ok (ms : list Variant) t :
  (∀ t', build ms t ≠ (Ok tt, t')) → collision_raised (build ms t).
Proof.
  intros Hnot. destruct (build ms t) as [[[]|x] t'] eqn:Hb.
  - by destruct (Hnot t').
  - destruct (build_raise _ _ _ _ Hb) as (who & key & ->).
    by exists who, key, t'.
Qed.

(** In a table that was built, strings of two members at different places
    of the declaration never normalize alike. *)
Lemma build_separates (ms : list Variant) t t' (i j : nat) (v w : Variant)
    (sv sw : string) :
  build ms t = (Ok tt, t') →
  i < j → ms !! i = Some v → ms !! j = Some w →
  sv ∈ keys_of v → sw ∈ keys_of w →
  normalize sv ≠ normalize sw.
Proof.
  intros Hb Hij Hi Hj Hsv Hsw Heq.
  rewrite <- (take_drop_middle ms i v Hi) in Hb.
  apply for_app_ok in Hb as (t1 & _ & Hb).
  apply for_cons_ok in Hb as (t2 & Hv & Hpost).
  destruct (register_member_ok _ _ _ Hv) as (_ & _ & Hin).
  destruct (build_ok _ _ _ Hpost) as (_ & Hfresh & _).
  assert (Hw : w ∈ drop (Datatypes.S i) ms).
  { apply list_elem_of_lookup. exists (j - Datatypes.S i).
    rewrite lookup_drop. rewrite <- Hj. f_equal. lia. }
  specialize (Hin sv Hsv). rewrite Heq, (Hfresh w sw Hw Hsw) in Hin.
  by destruct Hin.
Qed.

Lemma initialize_fresh (cls : EnumClass) :
  _initialize_lookup cls None
  = (fst (build (members cls) ∅), Some (snd (build (members cls) ∅))).
Proof.
  unfold _initialize_lookup, build.
  by destruct (for_ (members cls) register_member ∅).
Qed.

Lemma initialize_collision (cls : EnumClass) :
  collision_raised (build (members cls) ∅) →
  collision_raised (_initialize_lookup cls None).
Proof.
  intros (who & key & t & H). rewrite initialize_fresh, H.
  by exists who, key, (Some t).
Qed.

(** X1: the collisions the build does reject: it fails with the collision error
    whenever strings of two different members normalize alike (two names, a
    name and an alias of another member, aliases of two members), and
    whenever a name or an alias of the next member normalizes to any key
    already in the table, whatever inserted it. The key of the alias list
    is not among the keys checked. *)
Theorem collisions_rejected (cls : EnumClass) :
  (∀ (i j : nat) (v w : Variant) (sv sw : string),
     i ≠ j →
     members cls !! i = Some v → members cls !! j = Some w →
     sv ∈ keys_of v → sw ∈ keys_of w →
     normalize sv = normalize sw →
     collision_raised (_initialize_lookup cls None))
  ∧ (∀ (pre post : list Variant) (e : Variant) (t : lookup_table) (s : string),
       members cls = (pre ++ e :: post)%list →
       build pre ∅ = (Ok tt, t) →
       s ∈ keys_of e →
       is_Some (t !! normalize s) →
       collision_raised (_initialize_lookup cls None)).
Proof.
  split.
  - intros i j v w sv sw Hij Hi Hj Hsv Hsw Heq.
    apply initialize_collision, build_not_ok. intros t' Hb.
    destruct (decide (i < j)) as [Hlt|Hge].
    + by eapply (build_separates _ _ _ i j v w sv sw).
    + eapply (build_separates _ _ _ j i w v sw sv); eauto. lia.
  - intros pre post e t s Hms Hpre Hs Hpresent.
    apply initialize_collision, build_not_ok. intros t' Hb.
    rewrite Hms in Hb. apply for_app_ok in Hb as (t1 & Hpre' & Hb).
    unfold build in Hpre. rewrite Hpre in Hpre'. injection Hpre' as <-.
    apply for_cons_ok in Hb as (t2 & He & _).
    destruct (register_member_ok _ _ _ He) as (_ & Hfresh & _).
    rewrite (Hfresh s Hs) in Hpresent. by destruct Hpresent.
Qed.

End Collisions.

Import Examples.

(** The definition of [Ambiguous] is rejected: [A_B] and [AB] normalize
    alike. *)
Lemma collisions_rejected_witness :
  collision_raised (_initialize_lookup Ambiguous None).
Proof.
  apply (proj1 (collisions_rejected Ambiguous) 1 2 A_B AB "A_B" "AB").
  - lia.
  - reflexivity.
  - reflexivity.
  - apply list_elem_of_here.
  - apply list_elem_of_here.
  - vm_refl.
Defined.

(** ** Resolution *)

Section Resolution.

Implicit Types (cls : EnumClass) (d : cls_dict) (t : lookup_table) (x : PyVal).

(** Whatever the outcome of initialization, the attribute is bound after. *)
Lemma initialize_binds cls d (r : result unit) d' :
  _initialize_lookup cls d = (r, d') → ∃ t, d' = Some t.
Proof.
  unfold _initialize_lookup. destruct d as [t|].
  - intros [= <- <-]. eauto.
  - destruct (for_ (members cls) register_member ∅) as [r' t].
    intros [= <- <-]. eauto.
Qed.

(** Resolution against a table that is there. *)
Lemma from_str_ready cls d t x (raise_error : bool) :
  _initialize_lookup cls d = (Ok tt, Some t) →
  isinstance_cls cls x = false →
  (is_None x && negb raise_error = false) →
  (negb (isinstance_str x) && raise_error = false) →
  from_str cls x raise_error d
  = match t !! _normalize x with
    | Some e => (Ok (Some e), Some t)
    | None => if raise_error then (Raise (ValueError (CouldNotFind x)), Some t)
              else (Ok None, Some t)
    end.
Proof.
  intros Hinit Hcls Hnone Hstr. unfold from_str.
  rewrite Hcls, Hnone, Hstr. unfold bind. rewrite Hinit.
  unfold lookup_get. destruct (t !! _normalize x) as [e|]; [reflexivity|].
  destruct raise_error; reflexivity.
Qed.

(** X5: a failed build leaves the partly filled table bound to the class, and
    every later call resolves against it. *)
Theorem failed_build_leaves_table cls (x : exn) d' :
  _initialize_lookup cls None = (Raise x, d') →
  ∃ t, d' = Some t
       ∧ _initialize_lookup cls d' = (Ok tt, d')
       ∧ ∀ s : string,
           from_str cls (PyStr s) false d' = (Ok (t !! normalize s), d').
Proof.
  intros H. destruct (initialize_binds _ _ _ _ H) as (t & ->).
  exists t. split; [reflexivity|]. split; [reflexivity|].
  intros s. rewrite (from_str_ready cls (Some t) t); try reflexivity.
  unfold normalize. by destruct (t !! _normalize (PyStr s)).
Qed.

(** C3 (the code breaks it): the first resolution on [Ambiguous] raises the
    collision error, yet the class keeps the table filled up to the
    collision; the next resolution of ["a_b"] returns [A_B], and the member
    [C], declared after the collision, cannot be resolved. *)
Theorem C3_partial_table_survives :
  let first := from_str Ambiguous (PyStr "a_b") true in
  let d1 := store first None in
  outcome first None = Raise (ValueError (CannotRegister "AB" "ab"))
  ∧ (∃ t, d1 = Some t ∧ t !! "a" = Some A ∧ t !! "ab" = Some A_B
          ∧ t !! "c" = None)
  ∧ outcome (from_str Ambiguous (PyStr "a_b") true) d1 = Ok (Some A_B)
  ∧ outcome (from_str Ambiguous (PyStr "C") true) d1
    = Raise (ValueError (CouldNotFind (PyStr "C"))).
Proof.
  cbv zeta. split; [vm_refl|].
  split; [|split; vm_refl].
  exists (snd (build (members Ambiguous) ∅)).
  split; [vm_refl|].
  repeat split; vm_refl.
Qed.

(** C1 (the code breaks it): the table of [Shadowed] builds without a
    collision error, and strict resolution of ["alias['x']"], an alias of
    [OLD], returns [NEW]: the key of the alias list of [NEW] replaced it. *)
Theorem C1_alias_resolves_to_other_member :
  outcome (_initialize_lookup Shadowed) None = Ok tt
  ∧ OLD ∈ members Shadowed
  ∧ "alias['x']" ∈ names OLD
  ∧ outcome (from_str Shadowed (PyStr "alias['x']") true) None = Ok (Some NEW)
  ∧ NEW ≠ OLD.
Proof.
  split; [vm_refl|].
  split; [apply list_elem_of_here|].
  split; [apply list_elem_of_here|].
  split; [vm_refl | discriminate].
Qed.

(** C5 (the code breaks it): when [NEW] is registered, the normalized form
    of its value ["alias:['x']"] is already a key of the table, bound to
    [OLD]; the build of [Shadowed] does not fail, and the key is bound to
    [NEW] afterwards. *)
Theorem C5_composite_key_overwrites :
  ∃ t t' : lookup_table,
    build [OLD] ∅ = (Ok tt, t)
    ∧ names NEW ≠ []
    ∧ t !! normalize (value NEW) = Some OLD
    ∧ register_member NEW t = (Ok tt, t')
    ∧ t' !! normalize (value NEW) = Some NEW
    ∧ _initialize_lookup Shadowed None = (Ok tt, Some t').
Proof.
  exists (snd (build [OLD] ∅)), (snd (build (members Shadowed) ∅)).
  split; [vm_refl|].
  split; [discriminate|].
  split; [vm_refl|].
  split; [vm_refl|].
  split; vm_refl.
Qed.

(** C2 (the code breaks it): in [Shadowed] two keys from different variants
    normalize alike, the alias ["alias['x']"] of [OLD] and the alias list of
    [NEW]; both are inserted, the second without a check against the keys
    inserted so far, and the build does not fail with the collision error. *)
Theorem C2_alias_list_key_not_checked :
  OLD ∈ members Shadowed ∧ NEW ∈ members Shadowed ∧ OLD ≠ NEW
  ∧ "alias['x']" ∈ names OLD
  ∧ names NEW ≠ []
  ∧ normalize "alias['x']" = normalize (value NEW)
  ∧ is_Some (snd (build [OLD] ∅) !! normalize (value NEW))
  ∧ outcome (_initialize_lookup Shadowed) None = Ok tt
  ∧ ¬ collision_raised (_initialize_lookup Shadowed None).
Proof.
  split; [apply list_elem_of_here|].
  split; [apply list_elem_of_further, list_elem_of_here|].
  split; [discriminate|].
  split; [apply list_elem_of_here|].
  split; [discriminate|].
  split; [vm_refl|].
  split.
  { exists OLD. vm_refl. }
  split; [vm_refl|].
  intros (who & key & d & H).
  apply (f_equal fst) in H. cbn [fst] in H.
  change (outcome (_initialize_lookup Shadowed) None
          = Raise (ValueError (CannotRegister who key))) in H.
  assert (Hok : outcome (_initialize_lookup Shadowed) None = Ok tt) by vm_refl.
  rewrite Hok in H. discriminate H.
Qed.

End Resolution.

(** ** The non-strict policy *)

Section NonStrict.

Implicit Types (cls : EnumClass) (d : cls_dict) (t : lookup_table) (x : PyVal).




(** C7 as stated fails: ["data-type"] matches a member of [Kind], and its
    non-strict resolution is present, not absent. *)
Lemma C7_counterexample :
  ¬ (outcome (matches_any Kind (PyStr "data-type")) None = Ok true
     ↔ outcome (from_str Kind (PyStr "data-type") false) None = Ok None).
Proof.
  intros [H _]. assert (H' := H eq_refl). vm_compute in H'. discriminate.
Qed.

(** C7, amended: from every state of every class and for every input,
    [matches_any] raises exactly when non-strict resolution raises, with the
    same exception and the same effect on the class, and otherwise returns
    true exactly when the resolution is present (not [None]). *)
Theorem C7_matches_any_iff_present cls x d :
  matches_any cls x d
  = match from_str cls x false d with
    | (Ok r, d') => (Ok (bool_decide (is_Some r)), d')
    | (Raise e, d') => (Raise e, d')
    end.
Proof.
  unfold matches_any, bind.
  destruct (from_str cls x false d) as [[[e|]|err] d']; reflexivity.
Qed.

End NonStrict.

(** ** Identity and hashing across classes *)

Section Identity.

Implicit Types (c : EnumClass) (e : Variant).

(** C8 as stated fails: [Color1] and [Color2] are different classes with the
    same [__name__]; their members [RED] have the same hash, whatever the
    hash function. *)
Lemma C8_counterexample :
  cls_id Color1 ≠ cls_id Color2
  ∧ ∀ hash : string → Z, __hash__ hash Color1 RED = __hash__ hash Color2 RED.
Proof. split; [discriminate | reflexivity]. Qed.

Lemma append_inj_r (s1 s2 s : string) : s1 ++ s = s2 ++ s → s1 = s2.
Proof.
  intros H.
  assert (Hlen : String.length s1 = String.length s2).
  { apply (f_equal String.length) in H.
    rewrite !length_append in H. lia. }
  revert s2 H Hlen. induction s1 as [|a s1 IH]; intros [|b s2] H Hlen;
    try discriminate; [reflexivity|].
  rewrite !append_cons in H. injection H as -> H. f_equal. apply IH; [done|].
  simpl in Hlen. lia.
Qed.

(** C8, amended: two members of different classes always compare unequal;
    the hash is taken of the class's [__name__], a period and the member's
    name, so for members with the same name the hashed strings differ
    exactly when the two class names differ, and two classes with the same
    name give the same hash. *)
Theorem C8_different_classes c1 c2 e1 e2 :
  cls_id c1 ≠ cls_id c2 →
  __eq__ c1 e1 (PyMember (cls_id c2) e2) = false
  ∧ __ne__ c1 e1 (PyMember (cls_id c2) e2) = true
  ∧ (name e1 = name e2 →
     (hash_key c1 e1 = hash_key c2 e2 ↔ cls_name c1 = cls_name c2))
  ∧ (name e1 = name e2 → cls_name c1 = cls_name c2 →
     ∀ hash : string → Z, __hash__ hash c1 e1 = __hash__ hash c2 e2).
Proof.
  intros Hid.
  assert (Hne : Nat.eqb (cls_id c1) (cls_id c2) = false) by by apply Nat.eqb_neq.
  split; [unfold __eq__, is_member; by rewrite Hne|].
  split; [unfold __ne__, is_member; by rewrite Hne|].
  split.
  - intros Hname. unfold hash_key. rewrite Hname. split.
    + apply append_inj_r.
    + by intros ->.
  - intros Hname Hcls hash. unfold __hash__, hash_key. by rewrite Hname, Hcls.
Qed.

Lemma C8_different_classes_witness :
  __eq__ Color1 RED (PyMember (cls_id Kind) RED) = false
  ∧ hash_key Color1 RED ≠ hash_key Kind RED.
Proof.
  assert (H : cls_id Color1 ≠ cls_id Kind) by (vm_compute; lia).
  destruct (C8_different_classes Color1 Kind RED RED H) as (Heq & _ & Hkey & _).
  split; [exact Heq|].
  intros Hk. apply (Hkey eq_refl) in Hk. discriminate Hk.
Defined.

End Identity.

(** ** Converting the keys of a dictionary *)

Section ConvertKeys.

Context {V : Type}.
Implicit Types (cls : EnumClass) (st : cls_dict) (t : lookup_table)
  (d out : Dict.t V) (k : PyVal).

(** Non-strict resolution on a class whose table is there or builds: the
    result, and the fact that the table is there afterwards. *)
Lemma from_str_non_strict cls st t k :
  _initialize_lookup cls st = (Ok tt, Some t) →
  ∃ st1, from_str cls k false st = (Ok (resolve_in cls t k), st1)
        ∧ _initialize_lookup cls st1 = (Ok tt, Some t).
Proof.
  intros Hinit. unfold resolve_in.
  destruct (isinstance_cls cls k) eqn:Hcls.
  { exists st. unfold from_str. by rewrite Hcls. }
  destruct (is_None k) eqn:Hnone.
  { exists st. unfold from_str. by rewrite Hcls, Hnone. }
  exists (Some t). split; [|reflexivity].
  rewrite (from_str_ready cls st t k false Hinit Hcls).
  - by destruct (t !! _normalize k).
  - by rewrite Hnone.
  - by rewrite andb_false_r.
Qed.

(** Storing under a key that is not in the dictionary appends. *)
Lemma setitem_fresh out k (v : V) :
  k ∉ Dict.keys out → Dict.setitem out k v = (out ++ [(k, v)])%list.
Proof.
  induction out as [|[k' v'] out IH]; intros Hk; [reflexivity|].
  cbn [Dict.setitem]. destruct (decide (k' = k)) as [->|Hne].
  - exfalso. apply Hk. apply list_elem_of_here.
  - cbn [app]. f_equal. apply IH. intros Hin. apply Hk.
    by apply list_elem_of_further.
Qed.

(** A loop that stores every entry under a renamed key, when the renamed
    keys are new and pairwise different, maps the renaming over the
    entries. *)
Lemma fold_setitem_fresh (f : PyVal → PyVal) d out :
  NoDup (Dict.keys out ++ map f (Dict.keys d))%list →
  fold_left (λ o '(k, v), Dict.setitem o (f k) v) d out
  = (out ++ map (λ '(k, v), (f k, v)) d)%list.
Proof.
  revert out. induction d as [|[k v] d IH]; intros out Hnd.
  - by rewrite app_nil_r.
  - cbn [fold_left map]. cbn [Dict.keys map fst] in Hnd.
    assert (Hfresh : f k ∉ Dict.keys out).
    { apply NoDup_app in Hnd as (_ & Hdisj & _). intros Hin.
      apply (Hdisj _ Hin). apply list_elem_of_here. }
    rewrite setitem_fresh by exact Hfresh.
    rewrite IH.
    + by rewrite <- app_assoc.
    + unfold Dict.keys in *. rewrite map_app. cbn [map fst].
      rewrite <- app_assoc. exact Hnd.
Qed.

(** [convert_keys] on a class whose table is there or builds: it does not
    raise, and stores every entry under its converted key. *)
Lemma convert_keys_run cls st t d out :
  _initialize_lookup cls st = (Ok tt, Some t) →
  outcome
    (fold_for d
       (λ out_dict '(k, v),
          let* c := key_matches cls k in
          if (c : bool) then
            let* r := from_str cls k false in
            ret (Dict.setitem out_dict (to_key cls r) v)
          else ret (Dict.setitem out_dict k v))
       out) st
  = Ok (fold_left (λ o '(k, v), Dict.setitem o (converted_key cls t k) v) d out).
Proof.
  revert st out. induction d as [|[k v] d IH]; intros st out Hinit;
    [reflexivity|].
  cbn [fold_for fold_left]. unfold outcome, bind at 1.
  unfold converted_key at 2. unfold key_matches.
  destruct (isinstance_str k) eqn:Hstr; cbn [andb].
  - destruct (from_str_non_strict cls st t k Hinit) as (st1 & Hr & Hinit1).
    unfold bind at 1. unfold bind at 1. rewrite Hr. unfold ret at 1.
    destruct (negb (bool_decide (resolve_in cls t k = None))) eqn:Hm.
    + destruct (from_str_non_strict cls st1 t k Hinit1) as (st2 & Hr2 & Hinit2).
      unfold bind at 1. rewrite Hr2. unfold ret at 1.
      apply (IH st2 _ Hinit2).
    + unfold ret at 1. apply (IH st1 _ Hinit1).
  - unfold bind at 1. unfold ret at 1. unfold ret at 1. apply (IH st _ Hinit).
Qed.

Lemma convert_keys_outcome cls st t d :
  _initialize_lookup cls st = (Ok tt, Some t) →
  outcome (convert_keys cls d) st
  = Ok (fold_left (λ o '(k, v), Dict.setitem o (converted_key cls t k) v) d []).
Proof. apply convert_keys_run. Qed.

Lemma convert_keys_to_str_unfold cls d :
  convert_keys_to_str cls d
  = fold_left (λ o '(k, v), Dict.setitem o (str_key cls k) v) d [].
Proof.
  unfold convert_keys_to_str. generalize (@nil (PyVal * V)) as out.
  induction d as [|[k v] d IH]; intros out; [reflexivity|].
  cbn [fold_left]. rewrite <- IH. unfold str_key.
  by destruct (isinstance_cls cls k).
Qed.

End ConvertKeys.

(** ** The round trip through [convert_keys] and [convert_keys_to_str] *)

Section RoundTrip.

Context {V : Type}.
Implicit Types (cls : EnumClass) (st : cls_dict) (t : lookup_table)
  (d : Dict.t V) (k : PyVal).




(** C10: on a class whose table is built or builds, a dictionary with two
    different string keys that resolve to the same variant is converted to a
    dictionary with the single key of that variant, holding the value of the
    later key; the result has fewer entries than the input. *)
Theorem C10_convert_keys_collapses cls st t (s1 s2 : string) (e : Variant)
    (v1 v2 : V) :
  _initialize_lookup cls st = (Ok tt, Some t) →
  s1 ≠ s2 →
  t !! normalize s1 = Some e →
  t !! normalize s2 = Some e →
  let d := [(PyStr s1, v1); (PyStr s2, v2)] in
  ∃ out, outcome (convert_keys cls d) st = Ok out
         ∧ out = [(PyMember (cls_id cls) e, v2)]
         ∧ length out < length d.
Proof.
  intros Hinit Hne H1 H2 d. eexists. split; [|split; [reflexivity|cbn; lia]].
  unfold d. rewrite (convert_keys_outcome cls st t _ Hinit).
  cbn [fold_left]. unfold converted_key, resolve_in.
  cbn [isinstance_str isinstance_cls is_None andb]. unfold normalize in H1, H2.
  rewrite H1, H2. rewrite bool_decide_eq_false_2 by done.
  cbn [negb to_key Dict.setitem]. by rewrite decide_True.
Qed.

End RoundTrip.


Lemma C10_convert_keys_collapses_witness :
  let d := [(PyStr "data_type", 1%Z); (PyStr "DATA-TYPE", 2%Z)] in
  ∃ out, outcome (convert_keys Kind d) None = Ok out
         ∧ out = [(PyMember (cls_id Kind) DATA_TYPE, 2%Z)]
         ∧ length out < length d.
Proof.
  eapply (C10_convert_keys_collapses Kind None
            (snd (build (members Kind) ∅)) "data_type" "DATA-TYPE"
            DATA_TYPE 1%Z 2%Z).
  - vm_refl.
  - discriminate.
  - vm_refl.
  - vm_refl.
Defined.

(** ** What strict resolution of a declared string returns *)

Section Declared.

Implicit Types (t : lookup_table) (e w x : Variant) (k s : string).

(** The alias loop writes only under keys that were absent. *)
Lemma aliases_preserve e (l : list string) t t' k x :
  for_ l (register_alias e) t = (Ok tt, t') →
  t !! k = Some x → t' !! k = Some x.
Proof.
  revert t. induction l as [|a l IH]; intros t H Hk.
  - by injection H as <-.
  - apply for_cons_ok in H as (t1 & Ha & Hl). apply (IH _ Hl).
    rewrite register_alias_run in Ha.
    destruct (String.eqb _ _); [by injection Ha as <-|].
    destruct (bool_decide (is_Some (t !! normalize a))) eqn:Hp; [discriminate|].
    injection Ha as <-. apply bool_decide_eq_false in Hp.
    rewrite lookup_insert_ne; [done|]. intros <-. apply Hp. eauto.
Qed.

Lemma aliases_bind e (l : list string) t t' (a : string) :
  for_ l (register_alias e) t = (Ok tt, t') →
  a ∈ l → normalize a ≠ normalize (name e) →
  t' !! normalize a = Some e.
Proof.
  revert t. induction l as [|b l IH]; intros t H Ha Hne; [inversion Ha|].
  apply for_cons_ok in H as (t1 & Hb & Hl).
  apply elem_of_cons in Ha as [->|Ha]; [|by apply (IH _ Hl)].
  apply (aliases_preserve _ _ _ _ _ _ Hl).
  rewrite register_alias_run in Hb.
  destruct (String.eqb (normalize b) (normalize (name e))) eqn:Heq.
  { by apply String.eqb_eq in Heq. }
  destruct (bool_decide _); [discriminate|].
  injection Hb as <-. apply lookup_insert_eq.
Qed.

(** Registering a member leaves a bound key alone, unless the key is the
    normalized alias list of that member. *)
Lemma register_member_preserve w t t' k x :
  register_member w t = (Ok tt, t') →
  t !! k = Some x →
  (names w ≠ [] → normalize (value w) ≠ k) →
  t' !! k = Some x.
Proof.
  rewrite register_member_run. intros H Hk Hval.
  destruct (bool_decide (is_Some (t !! normalize (name w)))) eqn:Hp;
    [discriminate|].
  apply bool_decide_eq_false in Hp.
  assert (Hname : normalize (name w) ≠ k).
  { intros <-. apply Hp. eauto. }
  destruct (startswith "alias:" (value w)).
  - apply (aliases_preserve _ _ _ _ _ _ H).
    assert (Hv : normalize (value w) ≠ k).
    { unfold value in *. destruct (names w); [exact Hname | by apply Hval]. }
    by rewrite !lookup_insert_ne.
  - injection H as <-. by rewrite lookup_insert_ne.
Qed.

(** After a member is registered, its name and its aliases are bound to it. *)
Lemma register_member_binds e t t' s :
  register_member e t = (Ok tt, t') →
  s ∈ keys_of e → t' !! normalize s = Some e.
Proof.
  intros H Hs. pose proof H as Hrun. rewrite register_member_run in Hrun.
  destruct (bool_decide (is_Some (t !! normalize (name e)))); [discriminate|].
  destruct (startswith "alias:" (value e)) eqn:Hstart.
  - assert (Hname : t' !! normalize (name e) = Some e).
    { apply (aliases_preserve _ _ _ _ _ _ Hrun).
      destruct (decide (normalize (value e) = normalize (name e))) as [->|Hne].
      - apply lookup_insert_eq.
      - rewrite lookup_insert_ne by done. apply lookup_insert_eq. }
    apply elem_of_cons in Hs as [->|Hs]; [exact Hname|].
    destruct (decide (normalize s = normalize (name e))) as [->|Hne];
      [exact Hname|].
    by apply (aliases_bind _ _ _ _ _ Hrun).
  - injection Hrun as <-.
    assert (Hnames : names e = []).
    { destruct (names e) eqn:Hn; [done|].
      rewrite startswith_alias_value in Hstart; [discriminate|].
      by rewrite Hn. }
    unfold keys_of in Hs. rewrite Hnames in Hs.
    apply list_elem_of_singleton in Hs as ->. apply lookup_insert_eq.
Qed.

Lemma build_preserve (ms : list Variant) t t' k x :
  build ms t = (Ok tt, t') →
  t !! k = Some x →
  (∀ w, w ∈ ms → names w ≠ [] → normalize (value w) ≠ k) →
  t' !! k = Some x.
Proof.
  unfold build. revert t. induction ms as [|m ms IH]; intros t H Hk Hval.
  - by injection H as <-.
  - apply for_cons_ok in H as (t1 & Hm & Hms). apply (IH _ Hms).
    + apply (register_member_preserve _ _ _ _ _ Hm Hk).
      apply Hval, list_elem_of_here.
    + intros w Hw. apply Hval. by apply list_elem_of_further.
Qed.

(** In a table that was built, a name or an alias of a member is bound to
    that member, provided no other member's normalized alias list is that
    key. *)
Lemma build_binds (ms : list Variant) t t' e s :
  build ms t = (Ok tt, t') →
  e ∈ ms → s ∈ keys_of e →
  (∀ w, w ∈ ms → w ≠ e → names w ≠ [] → normalize (value w) ≠ normalize s) →
  t' !! normalize s = Some e.
Proof.
  revert t. induction ms as [|m ms IH]; intros t H He Hs Hval; [inversion He|].
  pose proof H as Hall. unfold build in H.
  apply for_cons_ok in H as (t1 & Hm & Hms).
  destruct (decide (m = e)) as [->|Hne].
  - apply (build_preserve ms t1 _ _ _ Hms).
    + by apply (register_member_binds _ _ _ _ Hm).
    + intros w Hw. apply Hval; [by apply list_elem_of_further|].
      intros ->.
      destruct (build_ok _ _ _ Hms) as (_ & Hfresh & _).
      pose proof (Hfresh e s Hw Hs) as Hnone.
      rewrite (register_member_binds _ _ _ _ Hm Hs) in Hnone. discriminate.
  - apply elem_of_cons in He as [->|He]; [done|].
    apply (IH t1 Hms He Hs). intros w Hw. apply Hval.
    by apply list_elem_of_further.
Qed.

Lemma resolve_declared (cls : EnumClass) t e s :
  _initialize_lookup cls None = (Ok tt, Some t) →
  e ∈ members cls → s ∈ keys_of e →
  (∀ w, w ∈ members cls → w ≠ e → names w ≠ [] →
        normalize (value w) ≠ normalize s) →
  from_str cls (PyStr s) true None = (Ok (Some e), Some t).
Proof.
  intros Hinit He Hs Hval.
  rewrite (from_str_ready cls None t (PyStr s) true Hinit); try reflexivity.
  assert (Hb : build (members cls) ∅ = (Ok tt, t)).
  { rewrite initialize_fresh in Hinit.
    destruct (build (members cls) ∅) as [r t0]. cbn in Hinit.
    by injection Hinit as -> ->. }
  change (_normalize (PyStr s)) with (normalize s).
  by rewrite (build_binds _ _ _ _ _ Hb He Hs Hval).
Qed.

(** X7: strict resolution of a name or an alias of a member returns the member,
    on a class whose table builds, provided no other member's normalized
    alias list is the normalized string. *)
Theorem from_str_declared (cls : EnumClass) t e s :
  _initialize_lookup cls None = (Ok tt, Some t) →
  e ∈ members cls → s ∈ keys_of e →
  (∀ w, w ∈ members cls → w ≠ e → names w ≠ [] →
        normalize (value w) ≠ normalize s) →
  from_str cls (PyStr s) true None = (Ok (Some e), Some t).
Proof. exact (resolve_declared cls t e s). Qed.

End Declared.

(** ** Further properties of the table *)

Section TableInvariant.

Implicit Types (t : lookup_table) (e w x : Variant) (k s : string).

Lemma for_cons_any {S A} (a : A) (l : list A) (body : A → M S unit)
    (q q' : S) (r : result unit) :
  for_ (a :: l) body q = (r, q') →
  (∃ y, body a q = (Raise y, q') ∧ r = Raise y)
  ∨ (∃ q1, body a q = (Ok tt, q1) ∧ for_ l body q1 = (r, q')).
Proof.
  rewrite for_cons. destruct (body a q) as [[[]|y] q1].
  - intros H. right. eauto.
  - intros [= <- <-]. left. eauto.
Qed.

(** Whatever its outcome, the alias loop binds only normalized alias names,
    and only to the member at hand. *)
Lemma aliases_sound e (l : list string) t t' (r : result unit) k x :
  for_ l (register_alias e) t = (r, t') →
  t' !! k = Some x →
  t !! k = Some x ∨ (x = e ∧ ∃ a, a ∈ l ∧ k = normalize a).
Proof.
  revert t. induction l as [|a l IH]; intros t H Hk.
  - injection H as <- <-. by left.
  - apply for_cons_any in H as [(y & Ha & _)|(t1 & Ha & Hl)];
      rewrite register_alias_run in Ha.
    + destruct (String.eqb _ _); [discriminate|].
      destruct (bool_decide _); [|discriminate].
      injection Ha as _ <-. by left.
    + destruct (IH _ Hl Hk) as [Hk1|(-> & b & Hb & ->)].
      * destruct (String.eqb _ _); [injection Ha as <-; by left|].
        destruct (bool_decide _); [discriminate|]. injection Ha as <-.
        destruct (decide (normalize a = k)) as [<-|Hne].
        -- rewrite lookup_insert_eq in Hk1. injection Hk1 as <-.
           right. split; [done|]. exists a. split; [apply list_elem_of_here|done].
        -- rewrite lookup_insert_ne in Hk1 by done. by left.
      * right. split; [done|]. exists b. split; [|done].
        by apply list_elem_of_further.
Qed.

Lemma register_member_sound e t t' (r : result unit) k x :
  register_member e t = (r, t') →
  t' !! k = Some x →
  t !! k = Some x ∨ (x = e ∧ k ∈ stored_keys e).
Proof.
  rewrite register_member_run. intros H Hk.
  destruct (bool_decide (is_Some (t !! normalize (name e)))).
  { injection H as _ <-. by left. }
  assert (Hins : ∀ (k1 : string) t0,
             k1 ∈ stored_keys e →
             (t0 !! k = Some x → t !! k = Some x ∨ (x = e ∧ k ∈ stored_keys e)) →
             <[k1:=e]> t0 !! k = Some x →
             t !! k = Some x ∨ (x = e ∧ k ∈ stored_keys e)).
  { intros k1 t0 Hk1 Ht0 Hl. destruct (decide (k1 = k)) as [<-|Hne].
    - rewrite lookup_insert_eq in Hl. injection Hl as <-. by right.
    - rewrite lookup_insert_ne in Hl by done. by apply Ht0. }
  destruct (startswith "alias:" (value e)).
  - destruct (aliases_sound _ _ _ _ _ _ _ H Hk) as [Hk1|(-> & a & Ha & ->)].
    + revert Hk1. apply Hins.
      { unfold stored_keys. apply list_elem_of_further, list_elem_of_here. }
      apply Hins; [apply list_elem_of_here | by left].
    + right. split; [done|]. unfold stored_keys.
      do 2 apply list_elem_of_further. by apply list_elem_of_fmap_2.
  - injection H as _ <-. revert Hk.
    apply Hins; [apply list_elem_of_here | by left].
Qed.

(** Whatever its outcome, the build binds a key only to a member of the
    list, and only a key that is the normalized name, value or alias of
    that member. *)
Lemma build_sound (ms : list Variant) t t' (r : result unit) k x :
  build ms t = (r, t') →
  t' !! k = Some x →
  t !! k = Some x ∨ (x ∈ ms ∧ k ∈ stored_keys x).
Proof.
  unfold build. revert t. induction ms as [|m ms IH]; intros t H Hk.
  - injection H as _ <-. by left.
  - apply for_cons_any in H as [(y & Hm & _)|(t1 & Hm & Hms)].
    + destruct (register_member_sound _ _ _ _ _ _ Hm Hk) as [?|(-> & ?)];
        [by left|].
      right. split; [apply list_elem_of_here | done].
    + destruct (IH _ Hms Hk) as [Hk1|(Hx & Hin)].
      * destruct (register_member_sound _ _ _ _ _ _ Hm Hk1) as [?|(-> & ?)];
          [by left|].
        right. split; [apply list_elem_of_here | done].
      * right. split; [by apply list_elem_of_further | done].
Qed.

Lemma stored_keys_normal e k : k ∈ stored_keys e → normalize k = k.
Proof.
  unfold stored_keys. intros Hk.
  apply elem_of_cons in Hk as [->|Hk]; [apply normalize_idempotent|].
  apply elem_of_cons in Hk as [->|Hk]; [apply normalize_idempotent|].
  apply list_elem_of_fmap in Hk as (a & -> & _). apply normalize_idempotent.
Qed.

Lemma table_sound (cls : EnumClass) (r : result unit)
    (t : lookup_table) (k : string) (e : Variant) :
  _initialize_lookup cls None = (r, Some t) →
  t !! k = Some e →
  e ∈ members cls ∧ k ∈ stored_keys e ∧ normalize k = k.
Proof.
  intros Hinit Hk. rewrite initialize_fresh in Hinit.
  destruct (build (members cls) ∅) as [r0 t0] eqn:Hb. cbn in Hinit.
  injection Hinit as -> ->.
  destruct (build_sound _ _ _ _ _ _ Hb Hk) as [Hempty|[He Hin]].
  - rewrite lookup_empty in Hempty. discriminate.
  - split; [done|]. split; [done|]. by eapply stored_keys_normal.
Qed.

(** X4: in the table the first resolution leaves on a class, whether the
    build ended normally or in the collision error, every key is a fixed
    point of the normalizer and is bound to a declared member whose
    normalized name, value or alias it is. *)
Theorem table_keys_normal_and_owned (cls : EnumClass) (r : result unit)
    (t : lookup_table) (k : string) (e : Variant) :
  _initialize_lookup cls None = (r, Some t) →
  t !! k = Some e →
  e ∈ members cls ∧ k ∈ stored_keys e ∧ normalize k = k.
Proof. exact (table_sound cls r t k e). Qed.

End TableInvariant.

Lemma table_keys_normal_and_owned_witness :
  _initialize_lookup Ambiguous None
  = (Raise (ValueError (CannotRegister "AB" "ab")), Some (table_of Ambiguous))
  ∧ A_B ∈ members Ambiguous ∧ "ab" ∈ stored_keys A_B
  ∧ normalize "ab" = "ab".
Proof.
  split; [vm_refl|].
  apply (table_keys_normal_and_owned Ambiguous
           (Raise (ValueError (CannotRegister "AB" "ab")))
           (table_of Ambiguous) "ab" A_B).
  - vm_refl.
  - vm_refl.
Defined.

(** ** Further properties of resolution *)

Section ResolutionFacts.

Implicit Types (cls : EnumClass) (st : cls_dict) (t : lookup_table)
  (x : PyVal) (e : Variant).

(** Resolution of a value that is not a member of the class, once the
    early returns are passed: initialization, then the lookup. *)
Lemma from_str_lookup cls x (raise_error : bool) st :
  isinstance_cls cls x = false →
  is_None x && negb raise_error = false →
  negb (isinstance_str x) && raise_error = false →
  from_str cls x raise_error st
  = match _initialize_lookup cls st with
    | (Ok _, Some t) =>
        match t !! _normalize x with
        | Some e => (Ok (Some e), Some t)
        | None => if raise_error
                  then (Raise (ValueError (CouldNotFind x)), Some t)
                  else (Ok None, Some t)
        end
    | (Ok _, None) => (Raise AttributeError, None)
    | (Raise y, st') => (Raise y, st')
    end.
Proof.
  intros Hcls Hnone Hstr. unfold from_str. rewrite Hcls, Hnone, Hstr.
  unfold bind. destruct (_initialize_lookup cls st) as [[[]|y] [t|]];
    try reflexivity.
  unfold lookup_get. destruct (t !! _normalize x); [reflexivity|].
  by destruct raise_error.
Qed.

(** X9: A member returned for a value that is not a member of the class is a
    declared member, and the normalized string form of the value is its
    normalized name, value or alias. *)
Theorem from_str_sound cls x (raise_error : bool) e st' :
  from_str cls x raise_error None = (Ok (Some e), st') →
  isinstance_cls cls x = false →
  e ∈ members cls ∧ _normalize x ∈ stored_keys e.
Proof.
  intros H Hcls. unfold from_str in H. rewrite Hcls in H.
  destruct (is_None x && negb raise_error); [discriminate|].
  destruct (negb (isinstance_str x) && raise_error); [discriminate|].
  unfold bind in H.
  destruct (_initialize_lookup cls None) as [[[]|y] st1] eqn:Hinit;
    [|discriminate].
  destruct (initialize_binds _ _ _ _ Hinit) as (t & ->).
  unfold lookup_get in H.
  destruct (t !! _normalize x) as [e'|] eqn:Hk.
  - cbn in H. injection H as -> _.
    destruct (table_sound cls _ t _ e Hinit Hk) as (? & ? & _).
    done.
  - destruct raise_error; discriminate.
Qed.

(** X10: strict resolution returns a member or raises: it never returns [None]. *)
Theorem from_str_strict_never_none cls x st :
  outcome (from_str cls x true) st ≠ Ok None.
Proof.
  unfold outcome, from_str.
  destruct (isinstance_cls cls x) eqn:Hcls.
  { destruct x; try discriminate. }
  rewrite andb_false_r.
  destruct (negb (isinstance_str x) && true); [discriminate|].
  unfold bind.
  destruct (_initialize_lookup cls st) as [[[]|y] st1] eqn:Hinit;
    [|discriminate].
  destruct (initialize_binds _ _ _ _ Hinit) as (t & ->).
  unfold lookup_get. by destruct (t !! _normalize x).
Qed.

Lemma from_str_same_normal_form cls (s1 s2 : string) st :
  normalize s1 = normalize s2 →
  from_str cls (PyStr s1) false st = from_str cls (PyStr s2) false st
  ∧ ∀ e st', from_str cls (PyStr s1) true st = (Ok (Some e), st')
             ↔ from_str cls (PyStr s2) true st = (Ok (Some e), st').
Proof.
  intros Heq. unfold normalize in Heq.
  split.
  - rewrite !from_str_lookup by reflexivity. by rewrite Heq.
  - intros e st'. rewrite !from_str_lookup by reflexivity. rewrite Heq.
    destruct (_initialize_lookup cls st) as [[[]|y] [t|]]; try done.
    by destruct (t !! _normalize (PyStr s2)).
Qed.

(** X11: non-strict resolution of two strings with the same normal form is the
    same computation; under strict resolution one returns a member exactly
    when the other returns it. *)
Theorem from_str_normal_form cls (s1 s2 : string) st :
  normalize s1 = normalize s2 →
  from_str cls (PyStr s1) false st = from_str cls (PyStr s2) false st
  ∧ ∀ e st', from_str cls (PyStr s1) true st = (Ok (Some e), st')
             ↔ from_str cls (PyStr s2) true st = (Ok (Some e), st').
Proof. exact (from_str_same_normal_form cls s1 s2 st). Qed.

Lemma from_str_strict_iff cls x e st st' :
  isinstance_str x = true →
  from_str cls x true st = (Ok (Some e), st')
  ↔ from_str cls x false st = (Ok (Some e), st').
Proof.
  intros Hstr. destruct (isinstance_cls cls x) eqn:Hcls.
  { unfold from_str. by rewrite Hcls. }
  assert (Hnone : is_None x = false) by (by destruct x).
  rewrite !from_str_lookup; try done; try (by rewrite ?Hnone, ?Hstr).
  destruct (_initialize_lookup cls st) as [[[]|y] [t|]]; try done.
  by destruct (t !! _normalize x).
Qed.

(** X12: on an instance of [str], the strict and the non-strict call return the
    same members, with the same effect on the class. *)
Theorem from_str_strict_agrees cls x e st st' :
  isinstance_str x = true →
  from_str cls x true st = (Ok (Some e), st')
  ↔ from_str cls x false st = (Ok (Some e), st').
Proof. exact (from_str_strict_iff cls x e st st'). Qed.

(** Once the attribute is bound, no resolution changes it. *)
Lemma from_str_keeps_table cls t x (raise_error : bool) :
  store (from_str cls x raise_error) (Some t) = Some t.
Proof.
  unfold store, from_str.
  destruct (isinstance_cls cls x); [reflexivity|].
  destruct (is_None x && negb raise_error); [reflexivity|].
  destruct (negb (isinstance_str x) && raise_error); [reflexivity|].
  unfold bind, _initialize_lookup, lookup_get.
  destruct (t !! _normalize x); [reflexivity|]. by destruct raise_error.
Qed.

End ResolutionFacts.

Lemma from_str_sound_witness :
  MODEL ∈ members Kind ∧ _normalize (PyStr "E-s-t-i-m-a-t-o-r") ∈ stored_keys MODEL.
Proof.
  apply (from_str_sound Kind (PyStr "E-s-t-i-m-a-t-o-r") true MODEL
           (Some (table_of Kind))).
  - vm_refl.
  - reflexivity.
Defined.

Lemma from_str_normal_form_witness :
  from_str Kind (PyStr "Data_Type") false None
  = from_str Kind (PyStr "DATA-TYPE") false None.
Proof.
  refine (proj1 (from_str_normal_form Kind "Data_Type" "DATA-TYPE" None _)).
  vm_refl.
Defined.

Lemma from_str_strict_agrees_witness :
  from_str Kind (PyStr "net") false None = (Ok (Some MODEL), Some (table_of Kind)).
Proof.
  apply (from_str_strict_agrees Kind (PyStr "net") MODEL None
           (Some (table_of Kind))); [reflexivity|].
  vm_refl.
Defined.

(** ** When the build ends normally *)

Section BuildSucceeds.

Implicit Types (t : lookup_table) (e w x : Variant) (k s : string).








(** After a member with aliases is registered, the key of its alias list is
    bound to it. *)
Lemma register_member_binds_value e t t' :
  register_member e t = (Ok tt, t') →
  names e ≠ [] →
  t' !! normalize (value e) = Some e.
Proof.
  rewrite register_member_run. intros H Hn.
  destruct (bool_decide _); [discriminate|].
  rewrite startswith_alias_value in H by done.
  apply (aliases_preserve _ _ _ _ _ _ H). apply lookup_insert_eq.
Qed.

Lemma build_binds_value (ms : list Variant) t t' e :
  build ms t = (Ok tt, t') →
  e ∈ ms → names e ≠ [] →
  (∀ w, w ∈ ms → w ≠ e → names w ≠ [] →
        normalize (value w) ≠ normalize (value e)) →
  t' !! normalize (value e) = Some e.
Proof.
  revert t. induction ms as [|m ms IH]; intros t H He Hn Hval; [inversion He|].
  unfold build in H. apply for_cons_ok in H as (t1 & Hm & Hms).
  destruct (decide (m = e)) as [->|Hne].
  - apply (build_preserve ms t1 _ _ _ Hms).
    + by apply (register_member_binds_value _ _ _ Hm).
    + intros w Hw. apply Hval; [by apply list_elem_of_further|].
      intros ->.
      destruct (build_ok _ _ _ Hms) as (_ & Hfresh & _).
      assert (Hk : name e ∈ keys_of e) by apply list_elem_of_here.
      pose proof (Hfresh e _ Hw Hk) as Hnone.
      rewrite (register_member_binds _ _ _ _ Hm Hk) in Hnone. discriminate.
  - apply elem_of_cons in He as [->|He]; [done|].
    apply (IH t1 Hms He Hn). intros w Hw. apply Hval.
    by apply list_elem_of_further.
Qed.

(** X8: the value of a member declared with [alias(...)] resolves to the
    member, on a class whose table builds, provided no other member's alias
    list normalizes like this one. *)
Theorem from_str_value (cls : EnumClass) t e :
  _initialize_lookup cls None = (Ok tt, Some t) →
  e ∈ members cls → names e ≠ [] →
  (∀ w, w ∈ members cls → w ≠ e → names w ≠ [] →
        normalize (value w) ≠ normalize (value e)) →
  from_str cls (PyStr (value e)) true None = (Ok (Some e), Some t).
Proof.
  intros Hinit He Hn Hval.
  rewrite (from_str_ready cls None t (PyStr (value e)) true Hinit);
    try reflexivity.
  assert (Hb : build (members cls) ∅ = (Ok tt, t)).
  { rewrite initialize_fresh in Hinit.
    destruct (build (members cls) ∅) as [r t0]. cbn in Hinit.
    by injection Hinit as -> ->. }
  change (_normalize (PyStr (value e))) with (normalize (value e)).
  by rewrite (build_binds_value _ _ _ _ Hb He Hn Hval).
Qed.

End BuildSucceeds.



Lemma from_str_value_witness :
  from_str Kind (PyStr (value MODEL)) true None
  = (Ok (Some MODEL), Some (table_of Kind)).
Proof.
  apply (from_str_value Kind (table_of Kind) MODEL).
  - vm_refl.
  - apply list_elem_of_further, list_elem_of_here.
  - discriminate.
  - intros w Hw Hne Hn.
    apply elem_of_cons in Hw as [->|Hw]; [by destruct Hn|].
    apply list_elem_of_singleton in Hw as ->. by destruct Hne.
Defined.

(** ** Dictionaries built by repeated assignment *)

Section DictFacts.

Context {V : Type}.
Implicit Types (d out : Dict.t V) (k : PyVal) (v : V) (f : PyVal → PyVal).

Lemma keys_setitem d k v :
  Dict.keys (Dict.setitem d k v)
  = if bool_decide (k ∈ Dict.keys d) then Dict.keys d
    else (Dict.keys d ++ [k])%list.
Proof.
  unfold Dict.keys. induction d as [|[k' v'] d IH].
  - cbn. rewrite bool_decide_eq_false_2; [done|]. by intros H; inversion H.
  - cbn [Dict.setitem]. destruct (decide (k' = k)) as [->|Hne].
    + cbn [map fst]. rewrite bool_decide_eq_true_2; [done|].
      apply list_elem_of_here.
    + cbn [map fst]. rewrite IH.
      destruct (bool_decide (k ∈ map fst d)) eqn:Hin.
      * apply bool_decide_eq_true in Hin. rewrite bool_decide_eq_true_2; [done|].
        by apply list_elem_of_further.
      * apply bool_decide_eq_false in Hin. rewrite bool_decide_eq_false_2; [done|].
        intros [?|?]%elem_of_cons; congruence.
Qed.

Lemma setitem_wf d k v : Dict.wf d → Dict.wf (Dict.setitem d k v).
Proof.
  unfold Dict.wf. rewrite keys_setitem. intros Hnd.
  destruct (bool_decide (k ∈ Dict.keys d)) eqn:Hin; [done|].
  apply bool_decide_eq_false in Hin. apply NoDup_app. split; [done|].
  split; [|apply NoDup_singleton].
  intros x Hx ->%list_elem_of_singleton. done.
Qed.

Lemma setitem_length d k v :
  (length (Dict.setitem d k v) ≤ Datatypes.S (length d))%nat.
Proof.
  induction d as [|[k' v'] d IH]; [cbn; lia|].
  cbn [Dict.setitem]. destruct (decide (k' = k)); cbn [length]; lia.
Qed.

Lemma setitem_entries d k v (k' : PyVal) (v' : V) :
  (k', v') ∈ Dict.setitem d k v → (k', v') ∈ d ∨ (k' = k ∧ v' = v).
Proof.
  induction d as [|[k0 v0] d IH]; cbn [Dict.setitem].
  - intros H%list_elem_of_singleton. injection H as -> ->. by right.
  - destruct (decide (k0 = k)) as [->|Hne].
    + intros [H|H]%elem_of_cons.
      * injection H as -> ->. by right.
      * left. by apply list_elem_of_further.
    + intros [H|H]%elem_of_cons.
      * left. rewrite H. apply list_elem_of_here.
      * destruct (IH H) as [?|?]; [left; by apply list_elem_of_further | by right].
Qed.

Lemma assign_all_facts f d out :
  Dict.wf out →
  Dict.wf (assign_all f d out)
  ∧ (length (assign_all f d out) ≤ length out + length d)%nat
  ∧ (∀ k, k ∈ Dict.keys (assign_all f d out)
          ↔ k ∈ Dict.keys out ∨ ∃ k0, k0 ∈ Dict.keys d ∧ k = f k0)
  ∧ (∀ k v, (k, v) ∈ assign_all f d out →
            (k, v) ∈ out ∨ ∃ k0, (k0, v) ∈ d ∧ k = f k0).
Proof.
  unfold assign_all. revert out. induction d as [|[k0 v0] d IH]; intros out Hwf.
  - cbn [fold_left]. split; [done|]. split; [lia|]. split.
    + intros k. split; [by left|]. intros [?|(? & H & _)]; [done | inversion H].
    + intros k v H. by left.
  - cbn [fold_left].
    destruct (IH (Dict.setitem out (f k0) v0) (setitem_wf _ _ _ Hwf))
      as (Hwf' & Hlen & Hkeys & Hent).
    split; [done|]. split.
    { pose proof (setitem_length out (f k0) v0). cbn [length]. lia. }
    split.
    + intros k. rewrite Hkeys, keys_setitem. cbn [Dict.keys map fst].
      fold (Dict.keys d).
      destruct (bool_decide (f k0 ∈ Dict.keys out)) eqn:Hin.
      * apply bool_decide_eq_true in Hin. split.
        -- intros [?|(k1 & H1 & ->)]; [by left|]. right. exists k1.
           split; [by apply list_elem_of_further | done].
        -- intros [?|(k1 & [->|H1]%elem_of_cons & ->)]; [by left | by left |].
           right. eauto.
      * rewrite elem_of_app, list_elem_of_singleton. split.
        -- intros [[?| ->]|(k1 & H1 & ->)]; [by left | |].
           ++ right. exists k0. split; [apply list_elem_of_here | done].
           ++ right. exists k1. split; [by apply list_elem_of_further | done].
        -- intros [?|(k1 & [->|H1]%elem_of_cons & ->)];
             [left; by left | left; by right | right; eauto].
    + intros k v H. destruct (Hent k v H) as [H1|(k1 & H1 & ->)].
      * destruct (setitem_entries _ _ _ _ _ H1) as [?|[-> ->]]; [by left|].
        right. exists k0. split; [apply list_elem_of_here | done].
      * right. exists k1. split; [by apply list_elem_of_further | done].
Qed.

(** Assigning again under keys the renaming leaves alone changes nothing. *)
Lemma assign_all_fixed f d :
  Dict.wf d → (∀ k, k ∈ Dict.keys d → f k = k) → assign_all f d [] = d.
Proof.
  intros Hwf Hfix. unfold assign_all.
  assert (Hmap : map f (Dict.keys d) = Dict.keys d).
  { clear Hwf. unfold Dict.keys in *. induction d as [|[k v] d IH];
      [reflexivity|]. cbn [map fst]. f_equal.
    - apply Hfix. apply list_elem_of_here.
    - apply IH. intros k' Hk'. apply Hfix. by apply list_elem_of_further. }
  rewrite fold_setitem_fresh by (cbn [Dict.keys map app]; by rewrite Hmap).
  cbn [app]. clear Hwf Hmap. unfold Dict.keys in *.
  induction d as [|[k v] d IH]; [reflexivity|]. cbn [map]. f_equal.
  - f_equal. apply Hfix. apply list_elem_of_here.
  - apply IH. intros k' Hk'. apply Hfix. by apply list_elem_of_further.
Qed.

End DictFacts.

(** ** Further properties of the conversions *)

Section ConversionFacts.

Implicit Types (cls : EnumClass) (st : cls_dict) (t : lookup_table)
  (k x : PyVal) (l : list PyVal).

Lemma converted_key_member cls t (e : Variant) :
  converted_key cls t (PyMember (cls_id cls) e) = PyMember (cls_id cls) e.
Proof.
  unfold converted_key, resolve_in, isinstance_cls, isinstance_str.
  rewrite Nat.eqb_refl. cbn [as_member andb to_key].
  by rewrite bool_decide_eq_false_2.
Qed.

Lemma converted_key_cases cls t k :
  converted_key cls t k = k
  ∨ ∃ e, converted_key cls t k = PyMember (cls_id cls) e.
Proof.
  unfold converted_key.
  destruct (isinstance_str k && negb (bool_decide (resolve_in cls t k = None)))
    eqn:Hm; [|by left].
  destruct (resolve_in cls t k) as [e|]; [right; by exists e|].
  rewrite bool_decide_eq_true_2 in Hm by done. by rewrite andb_false_r in Hm.
Qed.

Lemma converted_key_idempotent cls t k :
  converted_key cls t (converted_key cls t k) = converted_key cls t k.
Proof.
  destruct (converted_key_cases cls t k) as [Hk|(e & Hk)]; rewrite Hk.
  - exact Hk.
  - apply converted_key_member.
Qed.

Lemma str_key_idempotent cls k : str_key cls (str_key cls k) = str_key cls k.
Proof.
  unfold str_key. destruct (isinstance_cls cls k) eqn:Hk; [reflexivity|].
  by rewrite Hk.
Qed.

Lemma str_key_not_member cls k : isinstance_cls cls (str_key cls k) = false.
Proof.
  unfold str_key. destruct (isinstance_cls cls k) eqn:Hk; [reflexivity | done].
Qed.

(** Strict resolution of a value that matches, on a class whose table is
    there or builds. *)
Lemma from_str_strict_matched cls st t x (e : Variant) :
  _initialize_lookup cls st = (Ok tt, Some t) →
  isinstance_str x = true →
  resolve_in cls t x = Some e →
  ∃ st1, from_str cls x true st = (Ok (Some e), st1)
         ∧ _initialize_lookup cls st1 = (Ok tt, Some t).
Proof.
  intros Hinit Hstr Hres.
  destruct (from_str_non_strict cls st t x Hinit) as (st1 & Hr & Hinit1).
  exists st1. split; [|done]. rewrite Hres in Hr.
  by apply (from_str_strict_iff cls x e st st1 Hstr).
Qed.

(** [item_matches] on a class whose table is there or builds. *)
Lemma item_matches_run cls st t x :
  _initialize_lookup cls st = (Ok tt, Some t) →
  ∃ st1, item_matches cls x st
         = (Ok (isinstance_str x
                && negb (bool_decide (resolve_in cls t x = None))), st1)
         ∧ _initialize_lookup cls st1 = (Ok tt, Some t).
Proof.
  intros Hinit. unfold item_matches.
  destruct (isinstance_str x); cbn [andb]; [|by exists st].
  destruct (from_str_non_strict cls st t x Hinit) as (st1 & Hr & Hinit1).
  exists st1. split; [|done]. unfold matches_any, bind. by rewrite Hr.
Qed.

(** One turn of the loops of [convert_list] and [convert_set]. *)
Lemma convert_item_run {B} cls st t x (put : B → PyVal → B) (acc : B) :
  _initialize_lookup cls st = (Ok tt, Some t) →
  ∃ st1,
    (let* c := item_matches cls x in
     if (c : bool) then
       let* r := from_str cls x true in ret (put acc (to_key cls r))
     else ret (put acc x)) st
    = (Ok (put acc (converted_key cls t x)), st1)
    ∧ _initialize_lookup cls st1 = (Ok tt, Some t).
Proof.
  intros Hinit.
  destruct (item_matches_run cls st t x Hinit) as (st1 & Hm & Hinit1).
  unfold bind at 1. rewrite Hm. unfold converted_key.
  destruct (isinstance_str x) eqn:Hstr; cbn [andb]; [|by exists st1].
  destruct (resolve_in cls t x) as [e|] eqn:Hres.
  - rewrite bool_decide_eq_false_2 by done. cbn [negb].
    destruct (from_str_strict_matched cls st1 t x e Hinit1 Hstr Hres)
      as (st2 & Hr & Hinit2).
    exists st2. split; [|done]. unfold bind. by rewrite Hr.
  - rewrite bool_decide_eq_true_2 by done. cbn [negb]. by exists st1.
Qed.

Lemma fold_for_items {B} cls st t l (put : B → PyVal → B) (acc : B) :
  _initialize_lookup cls st = (Ok tt, Some t) →
  outcome
    (fold_for l
       (λ a item,
          let* c := item_matches cls item in
          if (c : bool) then
            let* r := from_str cls item true in ret (put a (to_key cls r))
          else ret (put a item))
       acc) st
  = Ok (fold_left (λ a item, put a (converted_key cls t item)) l acc).
Proof.
  revert st acc. induction l as [|x l IH]; intros st acc Hinit; [reflexivity|].
  cbn [fold_for fold_left]. unfold outcome, bind at 1.
  destruct (convert_item_run cls st t x put acc Hinit) as (st1 & Hrun & Hinit1).
  rewrite Hrun. apply (IH st1 _ Hinit1).
Qed.

Lemma fold_left_snoc (f : PyVal → PyVal) l (acc : list PyVal) :
  fold_left (λ a item, (a ++ [f item])%list) l acc = (acc ++ map f l)%list.
Proof.
  revert acc. induction l as [|x l IH]; intros acc; cbn [fold_left map].
  - by rewrite app_nil_r.
  - rewrite IH. by rewrite <- app_assoc.
Qed.

(** X15: on a class whose table is built or builds, [convert_keys] does not
    raise; its result is a dictionary (no key twice) that is not longer
    than the input, whose keys are the converted keys of the input and
    whose values are values of the input, each under the converted form of
    a key it had. *)
Theorem convert_keys_result {V} cls st t (d : Dict.t V) :
  _initialize_lookup cls st = (Ok tt, Some t) →
  ∃ out, outcome (convert_keys cls d) st = Ok out
         ∧ Dict.wf out
         ∧ (length out ≤ length d)%nat
         ∧ (∀ k, k ∈ Dict.keys out
                 ↔ ∃ k0, k0 ∈ Dict.keys d ∧ k = converted_key cls t k0)
         ∧ (∀ k (v : V), (k, v) ∈ out →
                         ∃ k0, (k0, v) ∈ d ∧ k = converted_key cls t k0).
Proof.
  intros Hinit. eexists. split; [by apply (convert_keys_outcome cls st t)|].
  destruct (assign_all_facts (converted_key cls t) d [])
    as (Hwf & Hlen & Hkeys & Hent); [apply NoDup_nil_2|].
  unfold assign_all in *. split; [done|]. split; [exact Hlen|]. split.
  - intros k. rewrite Hkeys. split; [|by right].
    intros [H|H]; [inversion H | done].
  - intros k v H. destruct (Hent k v H) as [H'|H']; [inversion H' | done].
Qed.

(** X16: converting the keys of a converted dictionary changes nothing. *)
Theorem convert_keys_idempotent {V} cls st t (d out : Dict.t V) :
  _initialize_lookup cls st = (Ok tt, Some t) →
  outcome (convert_keys cls d) st = Ok out →
  outcome (convert_keys cls out) st = Ok out.
Proof.
  intros Hinit Hout.
  rewrite (convert_keys_outcome cls st t _ Hinit) in Hout.
  injection Hout as <-.
  rewrite (convert_keys_outcome cls st t _ Hinit). f_equal.
  destruct (assign_all_facts (converted_key cls t) d [])
    as (Hwf & _ & Hkeys & _); [apply NoDup_nil_2|].
  apply (assign_all_fixed (converted_key cls t)); [exact Hwf|].
  intros k Hk. apply Hkeys in Hk as [Hk|(k0 & _ & ->)]; [inversion Hk|].
  apply converted_key_idempotent.
Qed.

(** X17: A dictionary without [str] keys is returned as it is, and the class is
    not touched: the table is not built, so that even a class with an
    ambiguous definition raises nothing. *)
Theorem convert_keys_without_str_keys {V} cls st (d : Dict.t V) :
  Dict.wf d →
  (∀ k, k ∈ Dict.keys d → isinstance_str k = false) →
  convert_keys cls d st = (Ok d, st).
Proof.
  intros Hwf Hns. unfold convert_keys.
  change d with ([] ++ d)%list at 2.
  assert (Hnd : NoDup (Dict.keys (@nil (PyVal * V)) ++ Dict.keys d)) by done.
  revert Hnd. generalize (@nil (PyVal * V)) as acc. clear Hwf.
  induction d as [|[k v] d IH]; intros acc Hnd.
  - cbn [fold_for]. by rewrite app_nil_r.
  - cbn [fold_for]. unfold bind at 1. unfold bind at 1. unfold key_matches.
    rewrite (Hns k) by apply list_elem_of_here. unfold ret at 1. unfold ret at 1.
    cbn [Dict.keys map fst] in Hnd.
    rewrite setitem_fresh.
    + rewrite IH.
      * by rewrite <- app_assoc.
      * intros k' Hk'. apply Hns. by apply list_elem_of_further.
      * unfold Dict.keys in *. rewrite map_app. cbn [map fst].
        by rewrite <- app_assoc.
    + apply NoDup_app in Hnd as (_ & Hdisj & _). intros Hin.
      apply (Hdisj _ Hin). apply list_elem_of_here.
Qed.

(** X18: the result of [convert_keys_to_str] is a dictionary (no key twice) with
    no key that is a member of the class, and converting it again changes
    nothing. *)
Theorem convert_keys_to_str_result {V} cls (d : Dict.t V) :
  let out := convert_keys_to_str cls d in
  Dict.wf out
  ∧ (∀ k, k ∈ Dict.keys out → isinstance_cls cls k = false)
  ∧ convert_keys_to_str cls out = out.
Proof.
  cbv zeta. rewrite !convert_keys_to_str_unfold.
  destruct (assign_all_facts (str_key cls) d [])
    as (Hwf & _ & Hkeys & _); [apply NoDup_nil_2|].
  unfold assign_all in *. split; [done|]. split.
  - intros k Hk. apply Hkeys in Hk as [Hk|(k0 & _ & ->)]; [inversion Hk|].
    apply str_key_not_member.
  - apply (assign_all_fixed (str_key cls)); [exact Hwf|].
    intros k Hk. apply Hkeys in Hk as [Hk|(k0 & _ & ->)]; [inversion Hk|].
    apply str_key_idempotent.
Qed.

(** X19: on a class whose table is built or builds, [convert_list] does not
    raise and returns the list of the converted items, in order; converting
    the result again changes nothing. *)
Theorem convert_list_result cls st t l :
  _initialize_lookup cls st = (Ok tt, Some t) →
  outcome (convert_list cls l) st = Ok (map (converted_key cls t) l)
  ∧ outcome (convert_list cls (map (converted_key cls t) l)) st
    = Ok (map (converted_key cls t) l).
Proof.
  intros Hinit.
  assert (Hrun : ∀ l', outcome (convert_list cls l') st
                       = Ok (map (converted_key cls t) l')).
  { intros l'. unfold convert_list.
    rewrite (fold_for_items cls st t l' (λ a y, (a ++ [y])%list) [] Hinit).
    by rewrite fold_left_snoc. }
  split; [apply Hrun|]. rewrite Hrun. f_equal. rewrite map_map.
  apply map_ext. intros x. apply converted_key_idempotent.
Qed.

End ConversionFacts.

(** ** Sets and the values of dictionaries *)

Section ValueConversions.

Implicit Types (cls : EnumClass) (st : cls_dict) (t : lookup_table)
  (k v x : PyVal) (d out : Dict.t PyVal).

Lemma add_all_facts (f : PyVal → PyVal) (s acc : PySet.t) :
  NoDup acc →
  NoDup (fold_left (λ a y, PySet.add a (f y)) s acc)
  ∧ ∀ x, x ∈ fold_left (λ a y, PySet.add a (f y)) s acc
         ↔ x ∈ acc ∨ ∃ y, y ∈ s ∧ x = f y.
Proof.
  revert acc. induction s as [|y s IH]; intros acc Hnd; cbn [fold_left].
  - split; [done|]. intros x. split; [by left|].
    intros [?|(? & H & _)]; [done | inversion H].
  - assert (Hadd : NoDup (PySet.add acc (f y))
                   ∧ ∀ x, x ∈ PySet.add acc (f y) ↔ x ∈ acc ∨ x = f y).
    { unfold PySet.add. destruct (bool_decide (f y ∈ acc)) eqn:Hin.
      - apply bool_decide_eq_true in Hin. split; [done|]. intros x.
        split; [by left|]. intros [?| ->]; done.
      - apply bool_decide_eq_false in Hin. split.
        + apply NoDup_app. split; [done|]. split; [|apply NoDup_singleton].
          intros x Hx ->%list_elem_of_singleton. done.
        + intros x. by rewrite elem_of_app, list_elem_of_singleton. }
    destruct Hadd as [Hnd1 Hmem1].
    destruct (IH _ Hnd1) as [Hnd2 Hmem2]. split; [done|].
    intros x. rewrite Hmem2, Hmem1. split.
    + intros [[?| ->]|(y' & Hy' & ->)]; [by left | |].
      * right. exists y. split; [apply list_elem_of_here | done].
      * right. exists y'. split; [by apply list_elem_of_further | done].
    + intros [?|(y' & [-> |Hy']%elem_of_cons & ->)];
        [left; by left | left; by right | right; eauto].
Qed.

(** X20: on a class whose table is built or builds, [convert_set] does not raise;
    its result is a set (no element twice) whose elements are exactly the
    converted elements of the input. *)
Theorem convert_set_result cls st t (s : PySet.t) :
  _initialize_lookup cls st = (Ok tt, Some t) →
  ∃ res : PySet.t,
    outcome (convert_set cls s) st = Ok res
    ∧ PySet.wf res
    ∧ ∀ x, x ∈ res ↔ ∃ y, y ∈ s ∧ x = converted_key cls t y.
Proof.
  intros Hinit. eexists. split.
  { unfold convert_set. apply (fold_for_items cls st t s PySet.add [] Hinit). }
  destruct (add_all_facts (converted_key cls t) s []) as [Hnd Hmem];
    [apply NoDup_nil_2|].
  split; [exact Hnd|]. intros x. rewrite Hmem. split; [|by right].
  intros [H|H]; [inversion H | done].
Qed.

Lemma convert_dict_values_run cls st t d out :
  _initialize_lookup cls st = (Ok tt, Some t) →
  outcome
    (fold_for d
       (λ out_dict '(k, v),
          let* c := key_matches cls v in
          if (c : bool) then
            let* r := from_str cls v false in
            ret (Dict.setitem out_dict k (to_key cls r))
          else ret (Dict.setitem out_dict k v))
       out) st
  = Ok (fold_left (λ o '(k, v), Dict.setitem o k (converted_key cls t v)) d out).
Proof.
  revert st out. induction d as [|[k v] d IH]; intros st out Hinit;
    [reflexivity|].
  cbn [fold_for fold_left]. unfold outcome, bind at 1.
  unfold converted_key at 2. unfold key_matches.
  destruct (isinstance_str v) eqn:Hstr; cbn [andb].
  - destruct (from_str_non_strict cls st t v Hinit) as (st1 & Hr & Hinit1).
    unfold bind at 1. unfold bind at 1. rewrite Hr. unfold ret at 1.
    destruct (negb (bool_decide (resolve_in cls t v = None))) eqn:Hm.
    + destruct (from_str_non_strict cls st1 t v Hinit1) as (st2 & Hr2 & Hinit2).
      unfold bind at 1. rewrite Hr2. unfold ret at 1.
      apply (IH st2 _ Hinit2).
    + unfold ret at 1. apply (IH st1 _ Hinit1).
  - unfold bind at 1. unfold ret at 1. unfold ret at 1. apply (IH st _ Hinit).
Qed.

Lemma fold_setitem_values (g : PyVal → PyVal) d out :
  NoDup (Dict.keys out ++ Dict.keys d)%list →
  fold_left (λ o '(k, v), Dict.setitem o k (g v)) d out
  = (out ++ map (λ '(k, v), (k, g v)) d)%list.
Proof.
  revert out. induction d as [|[k v] d IH]; intros out Hnd.
  - by rewrite app_nil_r.
  - cbn [fold_left map]. cbn [Dict.keys map fst] in Hnd.
    rewrite setitem_fresh.
    + rewrite IH; [by rewrite <- app_assoc|].
      unfold Dict.keys in *. rewrite map_app. cbn [map fst].
      by rewrite <- app_assoc.
    + apply NoDup_app in Hnd as (_ & Hdisj & _). intros Hin.
      apply (Hdisj _ Hin). apply list_elem_of_here.
Qed.

Lemma convert_dict_values_map cls st t d :
  _initialize_lookup cls st = (Ok tt, Some t) →
  Dict.wf d →
  outcome (convert_dict_values cls d) st
  = Ok (map (λ '(k, v), (k, converted_key cls t v)) d).
Proof.
  intros Hinit Hwf. unfold convert_dict_values.
  rewrite (convert_dict_values_run cls st t d [] Hinit).
  by rewrite fold_setitem_values.
Qed.

(** X21: on a class whose table is built or builds, [convert_dict_values] does
    not raise and returns the dictionary with the same keys in the same
    order, each value replaced by its converted form. *)
Theorem convert_dict_values_result cls st t d :
  _initialize_lookup cls st = (Ok tt, Some t) →
  Dict.wf d →
  outcome (convert_dict_values cls d) st
  = Ok (map (λ '(k, v), (k, converted_key cls t v)) d).
Proof. exact (convert_dict_values_map cls st t d). Qed.


(** A computation after a computation leaves the table alone when both do. *)
Lemma bind_keeps {A B} t (m : M cls_dict A) (f : A → M cls_dict B) :
  store m (Some t) = Some t →
  (∀ a, store (f a) (Some t) = Some t) →
  store (bind m f) (Some t) = Some t.
Proof.
  unfold store, bind. intros Hm Hf.
  destruct (m (Some t)) as [[a|y] st1]; cbn [snd] in *; subst; [apply Hf | done].
Qed.

Lemma fold_for_keeps {A B} t (l : list A) (body : B → A → M cls_dict B) (acc : B) :
  (∀ b a, store (body b a) (Some t) = Some t) →
  store (fold_for l body acc) (Some t) = Some t.
Proof.
  intros Hbody. revert acc. induction l as [|a l IH]; intros acc; [reflexivity|].
  cbn [fold_for]. apply bind_keeps; [apply Hbody | apply IH].
Qed.

Lemma key_matches_keeps cls t k : store (key_matches cls k) (Some t) = Some t.
Proof.
  unfold key_matches. destruct (isinstance_str k); [|reflexivity].
  apply bind_keeps; [apply from_str_keeps_table | reflexivity].
Qed.

Lemma item_matches_keeps cls t k : store (item_matches cls k) (Some t) = Some t.
Proof.
  unfold item_matches, matches_any. destruct (isinstance_str k); [|reflexivity].
  apply bind_keeps; [apply from_str_keeps_table | reflexivity].
Qed.

(** X6: once [_value2member_map_normalized_] is bound, nothing changes or
    rebuilds it: not a resolution, strict or not, whatever its outcome, and
    not a conversion of keys, of values, of a list or of a set. *)
Theorem table_is_never_rebuilt cls t :
  (∀ x (raise_error : bool), store (from_str cls x raise_error) (Some t) = Some t)
  ∧ (∀ x, store (matches_any cls x) (Some t) = Some t)
  ∧ (∀ (d : Dict.t PyVal), store (convert_keys cls d) (Some t) = Some t)
  ∧ (∀ (d : Dict.t PyVal), store (convert_dict_values cls d) (Some t) = Some t)
  ∧ (∀ l, store (convert_list cls l) (Some t) = Some t)
  ∧ (∀ s, store (convert_set cls s) (Some t) = Some t).
Proof.
  split; [intros; apply from_str_keeps_table|].
  split.
  { intros x. apply bind_keeps; [apply from_str_keeps_table | reflexivity]. }
  split.
  { intros d. apply fold_for_keeps. intros b [k v].
    apply bind_keeps; [apply key_matches_keeps|]. intros [|]; [|reflexivity].
    apply bind_keeps; [apply from_str_keeps_table | reflexivity]. }
  split.
  { intros d. apply fold_for_keeps. intros b [k v].
    apply bind_keeps; [apply key_matches_keeps|]. intros [|]; [|reflexivity].
    apply bind_keeps; [apply from_str_keeps_table | reflexivity]. }
  split.
  - intros l. apply fold_for_keeps. intros b a.
    apply bind_keeps; [apply item_matches_keeps|]. intros [|]; [|reflexivity].
    apply bind_keeps; [apply from_str_keeps_table | reflexivity].
  - intros s. apply fold_for_keeps. intros b a.
    apply bind_keeps; [apply item_matches_keeps|]. intros [|]; [|reflexivity].
    apply bind_keeps; [apply from_str_keeps_table | reflexivity].
Qed.

End ValueConversions.

(** ** Display names *)

Section DisplayName.

Lemma normalize_app (s1 s2 : string) :
  normalize (s1 ++ s2) = normalize s1 ++ normalize s2.
Proof. apply translate_app. Qed.

Lemma translate_char_to_lower (c : ascii) :
  Translate.translate_char _DEFAULT_REMOVAL_TABLE (Str.to_lower c)
  = Translate.translate_char _DEFAULT_REMOVAL_TABLE c.
Proof. destruct c as [[] [] [] [] [] [] [] []]; vm_refl. Qed.

Lemma translate_char_to_upper (c : ascii) :
  Translate.translate_char _DEFAULT_REMOVAL_TABLE (Str.to_upper c)
  = Translate.translate_char _DEFAULT_REMOVAL_TABLE c.
Proof. destruct c as [[] [] [] [] [] [] [] []]; vm_refl. Qed.

Lemma normalize_lower (w : string) : normalize (Str.lower w) = normalize w.
Proof.
  induction w as [|c w IH]; [reflexivity|].
  cbn [Str.lower]. rewrite !normalize_unfold, translate_char_to_lower.
  by rewrite IH.
Qed.

Lemma normalize_capitalize (w : string) :
  normalize (Str.capitalize w) = normalize w.
Proof.
  destruct w as [|c w]; [reflexivity|].
  cbn [Str.capitalize]. rewrite !normalize_unfold, translate_char_to_upper.
  by rewrite normalize_lower.
Qed.

Lemma normalize_display_word (w : string) :
  normalize (display_word w) = normalize w.
Proof.
  unfold display_word. destruct (bool_decide _);
    [apply normalize_lower | apply normalize_capitalize].
Qed.

Lemma join_cons (sep x y : string) (l : list string) :
  Repr.join sep (x :: y :: l) = x ++ sep ++ Repr.join sep (y :: l).
Proof. reflexivity. Qed.

(** Joining with a separator that the normalizer deletes. *)
Lemma normalize_join (sep : string) (l : list string) :
  normalize sep = "" →
  normalize (Repr.join sep l) = Repr.join "" (map normalize l).
Proof.
  intros Hsep. induction l as [|x l IH]; [reflexivity|].
  destruct l as [|y l]; [reflexivity|].
  cbn [map]. rewrite !join_cons, !normalize_app, Hsep, IH. reflexivity.
Qed.

Lemma split_nonempty (c : ascii) (s : string) : Str.split c s ≠ [].
Proof.
  destruct s as [|a s]; [discriminate|]. cbn [Str.split].
  destruct (Ascii.eqb a c); [discriminate|].
  by destruct (Str.split c s).
Qed.

(** [sep.join(s.split(sep)) == s] *)
Lemma join_split (c : ascii) (s : string) :
  Repr.join (String c "") (Str.split c s) = s.
Proof.
  induction s as [|a s IH]; [reflexivity|]. cbn [Str.split].
  destruct (Ascii.eqb a c) eqn:Hac.
  - apply Ascii.eqb_eq in Hac as ->.
    pose proof (split_nonempty c s) as Hne.
    destruct (Str.split c s) as [|w ws]; [done|].
    rewrite join_cons, IH. reflexivity.
  - pose proof (split_nonempty c s) as Hne.
    destruct (Str.split c s) as [|w ws]; [done|].
    destruct ws as [|w' ws].
    + cbn [Repr.join] in *. by rewrite IH.
    + rewrite join_cons in *. rewrite append_cons. by rewrite IH.
Qed.

(** X23: for a member with an ASCII name and a separator that the normalizer
    deletes (the default space, for one), the display name has the normal
    form of the name: wherever the name resolves, the display name resolves
    to the same member, in the same way. *)
Theorem display_name_resolves (cls : EnumClass) (st : cls_dict)
    (e : Variant) (sep : string) :
  Str.is_ascii (name e) = true →
  normalize sep = "" →
  normalize (display_name e sep) = normalize (name e)
  ∧ from_str cls (PyStr (display_name e sep)) false st
    = from_str cls (PyStr (name e)) false st.
Proof.
  intros _ Hsep.
  assert (Hn : normalize (display_name e sep) = normalize (name e)).
  { unfold display_name. rewrite (normalize_join sep _ Hsep), map_map.
    rewrite (map_ext _ normalize) by (intros w; apply normalize_display_word).
    rewrite <- (normalize_join "_") by reflexivity.
    by rewrite (join_split "_"%char). }
  split; [exact Hn|]. by apply from_str_same_normal_form.
Qed.

End DisplayName.

Section Matches.

Implicit Types (cls : EnumClass) (st : cls_dict) (x : PyVal) (e : Variant).

(** X13: at most one member matches a value, and then [matches_any] is true. *)
Theorem matches_unique cls st x e :
  outcome (matches cls e x) st = Ok true →
  outcome (matches_any cls x) st = Ok true
  ∧ ∀ e', outcome (matches cls e' x) st = Ok true → e' = e.
Proof.
  unfold outcome, matches, matches_any, bind.
  destruct (from_str cls x false st) as [[r|y] st1]; cbn [fst ret];
    [|discriminate].
  intros [= Hr]. apply bool_decide_eq_true in Hr as ->. split.
  - by rewrite bool_decide_eq_false_2.
  - intros e' [= He']. apply bool_decide_eq_true in He'. congruence.
Qed.

(** X14: A member matches its own name and each of its aliases, on a class whose
    table builds, provided no other member's normalized alias list is the
    normalized string. *)
Theorem matches_declared cls (t : lookup_table) e (s : string) :
  _initialize_lookup cls None = (Ok tt, Some t) →
  e ∈ members cls → s ∈ keys_of e →
  (∀ w, w ∈ members cls → w ≠ e → names w ≠ [] →
        normalize (value w) ≠ normalize s) →
  matches cls e (PyStr s) None = (Ok true, Some t).
Proof.
  intros Hinit He Hs Hval.
  pose proof (resolve_declared cls t e s Hinit He Hs Hval) as Hstrict.
  apply (from_str_strict_iff cls (PyStr s) e None (Some t) eq_refl) in Hstrict.
  unfold matches, bind. rewrite Hstrict. unfold ret.
  by rewrite bool_decide_eq_true_2.
Qed.

End Matches.

(** ** The further statements on concrete inputs *)

Lemma convert_keys_result_witness :
  ∃ out : Dict.t Z,
    outcome (convert_keys Kind [(PyStr "net", 1%Z); (PyStr "NET", 2%Z)]) None
    = Ok out
    ∧ Dict.wf out
    ∧ (length out ≤ 2)%nat
    ∧ (∀ k, k ∈ Dict.keys out
            ↔ ∃ k0, k0 ∈ [PyStr "net"; PyStr "NET"]
                    ∧ k = converted_key Kind (table_of Kind) k0)
    ∧ (∀ k (v : Z), (k, v) ∈ out →
                    ∃ k0, (k0, v) ∈ [(PyStr "net", 1%Z); (PyStr "NET", 2%Z)]
                          ∧ k = converted_key Kind (table_of Kind) k0).
Proof.
  apply (convert_keys_result Kind None (table_of Kind)
           [(PyStr "net", 1%Z); (PyStr "NET", 2%Z)]).
  vm_refl.
Defined.

Lemma convert_keys_idempotent_witness :
  outcome (convert_keys Kind [(PyMember 1 MODEL, 2%Z)]) None
  = Ok [(PyMember 1 MODEL, 2%Z)].
Proof.
  apply (convert_keys_idempotent Kind None (table_of Kind)
           [(PyStr "net", 1%Z); (PyStr "NET", 2%Z)]).
  - vm_refl.
  - vm_refl.
Defined.

Lemma convert_keys_without_str_keys_witness :
  convert_keys Ambiguous [(PyInt 1, 1%Z); (PyNone, 2%Z)] None
  = (Ok [(PyInt 1, 1%Z); (PyNone, 2%Z)], None).
Proof.
  apply (convert_keys_without_str_keys Ambiguous None).
  - apply (bool_decide_unpack _). vm_compute. exact I.
  - intros k Hk. cbn in Hk.
    apply elem_of_cons in Hk as [->|Hk]; [reflexivity|].
    apply list_elem_of_singleton in Hk as ->. reflexivity.
Defined.

Lemma convert_list_result_witness :
  outcome (convert_list Kind [PyStr "data type"; PyInt 3; PyStr "zz"]) None
  = Ok (map (converted_key Kind (table_of Kind))
          [PyStr "data type"; PyInt 3; PyStr "zz"])
  ∧ map (converted_key Kind (table_of Kind))
      [PyStr "data type"; PyInt 3; PyStr "zz"]
    = [PyMember 1 DATA_TYPE; PyInt 3; PyStr "zz"].
Proof.
  split.
  - refine (proj1 (convert_list_result Kind None (table_of Kind) _ _)).
    vm_refl.
  - vm_refl.
Defined.

Lemma convert_set_result_witness :
  ∃ res : PySet.t,
    outcome (convert_set Kind [PyStr "data type"; PyStr "DATA_TYPE"]) None = Ok res
    ∧ PySet.wf res
    ∧ ∀ x, x ∈ res ↔ ∃ y, y ∈ [PyStr "data type"; PyStr "DATA_TYPE"]
                           ∧ x = converted_key Kind (table_of Kind) y.
Proof.
  apply (convert_set_result Kind None (table_of Kind)
           [PyStr "data type"; PyStr "DATA_TYPE"]).
  vm_refl.
Defined.

Lemma convert_dict_values_result_witness :
  outcome (convert_dict_values Kind [(PyStr "a", PyStr "net"); (PyInt 3, PyInt 4)])
    None
  = Ok (map (λ '(k, v), (k, converted_key Kind (table_of Kind) v))
          [(PyStr "a", PyStr "net"); (PyInt 3, PyInt 4)]).
Proof.
  apply (convert_dict_values_result Kind None (table_of Kind)).
  - vm_refl.
  - apply (bool_decide_unpack _). vm_compute. exact I.
Defined.


Lemma display_name_resolves_witness :
  normalize (display_name DATA_TYPE " ") = normalize (name DATA_TYPE)
  ∧ from_str Kind (PyStr (display_name DATA_TYPE " ")) false None
    = from_str Kind (PyStr (name DATA_TYPE)) false None.
Proof.
  apply (display_name_resolves Kind None DATA_TYPE " ").
  - vm_refl.
  - vm_refl.
Defined.

Lemma matches_unique_witness :
  outcome (matches_any Kind (PyStr "estimator")) None = Ok true
  ∧ ∀ e', outcome (matches Kind e' (PyStr "estimator")) None = Ok true
          → e' = MODEL.
Proof.
  apply (matches_unique Kind None (PyStr "estimator") MODEL).
  vm_refl.
Defined.

Lemma matches_declared_witness :
  matches Kind MODEL (PyStr "Estimator") None = (Ok true, Some (table_of Kind)).
Proof.
  apply (matches_declared Kind (table_of Kind) MODEL "Estimator").
  - vm_refl.
  - apply list_elem_of_further, list_elem_of_here.
  - do 2 apply list_elem_of_further. apply list_elem_of_here.
  - intros w Hw Hne Hn.
    apply elem_of_cons in Hw as [->|Hw]; [by destruct Hn|].
    apply list_elem_of_singleton in Hw as ->. by destruct Hne.
Defined.

Lemma from_str_declared_witness :
  from_str Kind (PyStr "net") true None = (Ok (Some MODEL), Some (table_of Kind)).
Proof.
  apply (from_str_declared Kind (table_of Kind) MODEL "net").
  - vm_refl.
  - apply list_elem_of_further, list_elem_of_here.
  - apply list_elem_of_further, list_elem_of_here.
  - intros w Hw Hne Hn.
    apply elem_of_cons in Hw as [->|Hw]; [by destruct Hn|].
    apply list_elem_of_singleton in Hw as ->. by destruct Hne.
Defined.

Lemma failed_build_leaves_table_witness :
  ∃ t, Some (table_of Ambiguous) = Some t
       ∧ _initialize_lookup Ambiguous (Some (table_of Ambiguous))
         = (Ok tt, Some (table_of Ambiguous))
       ∧ ∀ s : string,
           from_str Ambiguous (PyStr s) false (Some (table_of Ambiguous))
           = (Ok (t !! normalize s), Some (table_of Ambiguous)).
Proof.
  apply (failed_build_leaves_table Ambiguous
           (ValueError (CannotRegister "AB" "ab")) (Some (table_of Ambiguous))).
  vm_refl.
Defined.
